(** * CodeGenie session orchestration: status polling, the code indices
      service and the two chat components, embedded from the TypeScript
      sources and checked against the specification.

    Layout
    - [JS]          values, exceptions, strings and the pieces of the
                    JavaScript runtime the sources rely on;
    - [Service]     [CodeIndicesService], the HTTP client of the backend;
    - [Poller]      the polling effect of [pages/Index.tsx];
    - [StreamChat]  the [CodeChat] component that reads the response with
                    [fetch] and a stream reader (id-addressed updates);
    - [EventChat]   the [CodeChat] component of [components/CodeChat.tsx]
                    built on [EventSource] (updates the last message);
    - [Arrays], [Views]  array methods and what [ChatMessage],
                    [CodeProgress] and [FileExplorer] compute for display;
    - [Loading]     [SourceInput] and the two load calls;
    - [Files]       file selection in [pages/Index.tsx];
    - [Ollama]      [OllamaSelector], the connection test and the model
                    calls.

    Strings are sequences of code units below 256; numbers are integers. *)

From Stdlib Require Import String Ascii List Bool Arith ZArith Lia.
From Stdlib Require Import DecimalString.
Import ListNotations.
Set Warnings "-register-all".
Open Scope list_scope.
Open Scope string_scope.

(* ================================================================== *)
(** ** The JavaScript runtime, as far as the sources use it *)
(* ================================================================== *)
Module JS.

(** A thrown value: an [Error] object (of any subclass) with its
    [message], or some other value, kept as what [String(v)] prints. *)
Inductive thrown : Type :=
| ErrorObj (message : string)
| NonError (text : string).

(** [error instanceof Error ? error.message : String(error)] *)
Definition message_of (error : thrown) : string :=
  match error with
  | ErrorObj m => m
  | NonError t => t
  end.

(** The outcome of evaluating a block: it completes with a value or
    throws. *)
Inductive completion (A : Type) : Type :=
| Return (a : A)
| Throw (e : thrown).
Arguments Return {A} a.
Arguments Throw {A} e.

(** One [console.error(label, error)] call. *)
Record log_entry : Type := Log { label : string; logged : thrown }.

(** Computations that write to the console and may throw. *)
Definition Js (A : Type) : Type := (list log_entry * completion A)%type.

Definition ret {A} (a : A) : Js A := ([], Return a).
Definition throw {A} (e : thrown) : Js A := ([], Throw e).
Definition console_error (lbl : string) (e : thrown) : Js unit :=
  ([Log lbl e], Return tt).

Definition bind {A B} (m : Js A) (f : A -> Js B) : Js B :=
  match m with
  | (l, Return a) => let (l', c) := f a in ((l ++ l')%list, c)
  | (l, Throw e) => (l, Throw e)
  end.

(** [try { m } catch (error) { h error }] *)
Definition try_catch {A} (m : Js A) (h : thrown -> Js A) : Js A :=
  match m with
  | (l, Return a) => (l, Return a)
  | (l, Throw e) => let (l', c) := h e in ((l ++ l')%list, c)
  end.

Definition lift {A} (c : completion A) : Js A := ([], c).

Declare Scope js_scope.
Delimit Scope js_scope with js.
Notation "x <- m ;; k" := (bind m (fun x => k))
  (at level 61, m at next level, right associativity) : js_scope.
Notation "m ;;; k" := (bind m (fun _ => k))
  (at level 61, right associativity) : js_scope.

(** Decimal rendering of numbers inside template literals. *)
Definition nat_to_string (n : nat) : string :=
  NilZero.string_of_uint (Nat.to_uint n).
Definition Z_to_string (z : Z) : string :=
  NilZero.string_of_int (Z.to_int z).

(** *** Strings *)

Definition LF : ascii := "010"%char.
Definition quote : ascii := "034"%char.

(** White space and line terminators removed by [String.prototype.trim]
    (code units below 256). *)
Definition is_white_space (c : ascii) : bool :=
  let n := nat_of_ascii c in
  ((9 <=? n)%nat && (n <=? 13)%nat) || (n =? 32)%nat || (n =? 160)%nat.

Fixpoint all_white_space (s : string) : bool :=
  match s with
  | EmptyString => true
  | String c s' => is_white_space c && all_white_space s'
  end.

(** [!s.trim()]: the trimmed string is empty exactly when every code
    unit is white space. *)
Definition trim_is_empty (s : string) : bool := all_white_space s.

(** [s.startsWith(p)] *)
Fixpoint startsWith (s p : string) {struct p} : bool :=
  match p with
  | EmptyString => true
  | String a p' =>
      match s with
      | String b s' => Ascii.eqb a b && startsWith s' p'
      | EmptyString => false
      end
  end.

(** [s.substring(n)] for [n] within the string or past its end. *)
Fixpoint substring_from (n : nat) (s : string) : string :=
  match n, s with
  | O, _ => s
  | S n', String _ s' => substring_from n' s'
  | S _, EmptyString => EmptyString
  end.

(** Puts a code unit in front of the segment being built. *)
Definition push_front (c : ascii) (segs : list string) : list string :=
  match segs with
  | h :: t => String c h :: t
  | [] => [String c EmptyString]
  end.

(** [s.split(sep)] for a non-empty separator: the segments between the
    leftmost non-overlapping occurrences of [sep].  [skip] counts the
    code units of an occurrence already matched that are still to be
    passed over. *)
Fixpoint split_from (sep : string) (skip : nat) (s : string) : list string :=
  match s with
  | EmptyString => [EmptyString]
  | String c s' =>
      match skip with
      | S k => split_from sep k s'
      | O =>
          if startsWith s sep
          then EmptyString :: split_from sep (String.length sep - 1) s'
          else push_front c (split_from sep 0 s')
      end
  end.

Definition split (s sep : string) : list string := split_from sep 0 s.

(** The texts put one after the other. *)
Fixpoint joined (texts : list string) : string :=
  match texts with
  | [] => ""
  | t :: rest => t ++ joined rest
  end.

(** No line feed among the code units of [s]. *)
Fixpoint no_LF (s : string) : bool :=
  match s with
  | EmptyString => true
  | String c s' => negb (Ascii.eqb c LF) && no_LF s'
  end.

(** *** JSON values *)

Inductive json : Type :=
| JNull
| JBool (b : bool)
| JNum (z : Z)
| JStr (s : string)
| JArr (items : list json)
| JObj (fields : list (string * json)).

(** ToBoolean *)
Definition truthy (v : option json) : bool :=
  match v with
  | None => false                       (* undefined *)
  | Some JNull => false
  | Some (JBool b) => b
  | Some (JNum z) => negb (Z.eqb z 0)
  | Some (JStr s) => negb (String.eqb s "")
  | Some (JArr _) | Some (JObj _) => true
  end.

(** Own property of a parsed object; [JSON.parse] keeps the last of
    duplicate keys. *)
Fixpoint lookup (key : string) (fields : list (string * json)) : option json :=
  match fields with
  | [] => None
  | (k, v) :: rest =>
      match lookup key rest with
      | Some v' => Some v'
      | None => if String.eqb k key then Some v else None
      end
  end.

(** [data.key] for one of the protocol keys ([chunk], [error], [done],
    [relevant_files]): [undefined] on primitives and arrays, a
    [TypeError] on [null]. *)
Definition get (data : json) (key : string) : completion (option json) :=
  match data with
  | JNull =>
      Throw (ErrorObj ("Cannot read properties of null (reading '" ++ key ++ "')"))
  | JObj fields => Return (lookup key fields)
  | _ => Return None
  end.

(** ToString, as used by [+=] on a string and by [new Error(v)]. *)
Fixpoint ToString (v : json) : string :=
  match v with
  | JNull => "null"
  | JBool true => "true"
  | JBool false => "false"
  | JNum z => Z_to_string z
  | JStr s => s
  | JArr items =>
      let fix join (l : list json) : string :=
        match l with
        | [] => ""
        | [x] => match x with JNull => "" | _ => ToString x end
        | x :: rest =>
            (match x with JNull => "" | _ => ToString x end) ++ "," ++ join rest
        end in
      join items
  | JObj _ => "[object Object]"
  end.

End JS.

(* ================================================================== *)
(** ** [CodeIndicesService] (imported as utils/codeIndicesService) *)
(* ================================================================== *)
Module Service.
Import JS.
Local Open Scope js_scope.

Record Stats : Type := {
  total_files : option Z;
  indexed_files : option Z;
  skipped_files : option Z;
  binary_files : option Z;
  by_language : option (list (string * Z))
}.

(** [stats: {}] *)
Definition no_stats : Stats :=
  {| total_files := None; indexed_files := None; skipped_files := None;
     binary_files := None; by_language := None |}.

Record IndexingStatus : Type := {
  is_indexing : bool;
  progress : Z;
  message : string;
  stats : Stats;
  error : option string          (* string | null *)
}.

(** Directory trees are only passed through here. *)
Inductive FileTreeNode : Type :=
| FileNode (language path : string)
| DirectoryNode (children : list (string * FileTreeNode)).

Record FileStructure : Type := {
  fs_success : bool;
  structure_root : list (string * FileTreeNode);
  fs_error : option string
}.

Record LLMResponse : Type := {
  success : bool;
  response : string;
  model : option string;
  relevant_files : option (list string);
  llm_error : option string
}.

(** What a [ReadableStream]'s reader delivers: the text of each read,
    then either [{done: true}] or a rejected [read()]. *)
Inductive stream_end : Type :=
| Done
| Errored (e : thrown).

Record ReadableStream : Type := {
  reads : list string;
  ending : stream_end
}.

(** An HTTP response: its status, what [response.json()] settles to
    (read through the declared type [A]), and [response.body]. *)
Record Response (A : Type) : Type := {
  status : nat;
  json_body : completion A;
  body : option ReadableStream
}.
Arguments status {A} _.
Arguments json_body {A} _.
Arguments body {A} _.

(** What [await fetch(...)] does: it rejects (network failure) or
    resolves to a response. *)
Inductive fetch_outcome (A : Type) : Type :=
| Rejected (e : thrown)
| Resolved (r : Response A).
Arguments Rejected {A} e.
Arguments Resolved {A} r.

Definition fetch {A} (net : fetch_outcome A) : Js (Response A) :=
  match net with
  | Rejected e => throw e
  | Resolved r => ret r
  end.

(** [response.ok] *)
Definition ok {A} (r : Response A) : bool :=
  ((200 <=? status r) && (status r <=? 299))%nat.

(** [throw new Error(`HTTP error ${response.status}`)] *)
Definition http_error {A B} (r : Response A) : Js B :=
  throw (ErrorObj ("HTTP error " ++ nat_to_string (status r))).

(** What the guarded block of an endpoint that returns
    [await response.json()] does with an answer: the error it throws
    (a rejected [fetch], a status outside 200..299, a body that does
    not parse) or the value it returns. *)
Definition attempt {A} (net : fetch_outcome A) : thrown + A :=
  match net with
  | Rejected e => inl e
  | Resolved r =>
      if ok r then
        match json_body r with
        | Return a => inr a
        | Throw e => inl e
        end
      else inl (ErrorObj ("HTTP error " ++ nat_to_string (status r)))
  end.

(** [getIndexingStatus]'s [catch] branch value. *)
Definition status_fallback (e : thrown) : IndexingStatus :=
  {| is_indexing := false;
     progress := 0;
     message := "Failed to get indexing status: " ++ message_of e;
     stats := no_stats;
     error := Some (message_of e) |}.

Definition getIndexingStatus (net : fetch_outcome IndexingStatus)
  : Js IndexingStatus :=
  try_catch
    (response <- fetch net ;;
     if negb (ok response) then http_error response
     else lift (json_body response))
    (fun error =>
       console_error "Error getting indexing status:" error ;;;
       ret (status_fallback error)).

Definition structure_fallback (e : thrown) : FileStructure :=
  {| fs_success := false; structure_root := [];
     fs_error := Some (message_of e) |}.

Definition getFileStructure (net : fetch_outcome FileStructure)
  : Js FileStructure :=
  try_catch
    (response <- fetch net ;;
     if negb (ok response) then http_error response
     else lift (json_body response))
    (fun error =>
       console_error "Error getting file structure:" error ;;;
       ret (structure_fallback error)).

(** [queryCode] returns the parsed body ([None] when it is [null] or a
    primitive, which the chat component checks for) or the response's
    stream ([None] for a null [response.body]). *)
Inductive QueryResult : Type :=
| Buffered (r : option LLMResponse)
| Streamed (s : option ReadableStream).

Definition query_fallback (e : thrown) : LLMResponse :=
  {| success := false; response := ""; model := None;
     relevant_files := None; llm_error := Some (message_of e) |}.

Definition queryCode (query : string) (stream : bool)
    (net : fetch_outcome (option LLMResponse)) : Js QueryResult :=
  try_catch
    (if stream then
       response <- fetch net ;;
       if negb (ok response) then http_error response
       else ret (Streamed (body response))
     else
       response <- fetch net ;;
       if negb (ok response) then http_error response
       else v <- lift (json_body response) ;; ret (Buffered v))
    (fun error =>
       console_error "Error querying code:" error ;;;
       ret (Buffered (Some (query_fallback error)))).

End Service.

(* ================================================================== *)
(** ** pages/Index.tsx: the status polling effect *)
(* ================================================================== *)
Module Poller.
Import JS Service.

Inductive Tab : Type := TabStatus | TabFiles | TabChat.
Inductive ConnectionStep : Type := Setup | Connected.

(** The component state the polling effect reads and writes, the
    interval handle, and a record of what the effect did to the outside
    world: the requests it issued and the statuses it published. *)
Record Index : Type := {
  connectionStep : ConnectionStep;
  selectedTab : Tab;
  indexingStatus : IndexingStatus;
  fileStructure : FileStructure;
  startPolling : bool;
  pollInterval : bool;               (* set and not yet cleared *)
  console : list log_entry;
  status_requests : nat;             (* GET /indexing-status issued *)
  tree_requests : nat;               (* GET /file-structure issued *)
  published : list IndexingStatus    (* setIndexingStatus calls, oldest first *)
}.

Definition initial : Index :=
  {| connectionStep := Setup;
     selectedTab := TabStatus;
     indexingStatus :=
       {| is_indexing := false; progress := 0;
          message := "Waiting to start indexing...";
          stats := no_stats; error := None |};
     fileStructure :=
       {| fs_success := false; structure_root := []; fs_error := None |};
     startPolling := false;
     pollInterval := false;
     console := [];
     status_requests := 0;
     tree_requests := 0;
     published := [] |}.

Definition setSelectedTab (t : Tab) (st : Index) : Index :=
  {| connectionStep := connectionStep st; selectedTab := t;
     indexingStatus := indexingStatus st; fileStructure := fileStructure st;
     startPolling := startPolling st; pollInterval := pollInterval st;
     console := console st; status_requests := status_requests st;
     tree_requests := tree_requests st; published := published st |}.

Definition setIndexingStatus (s : IndexingStatus) (st : Index) : Index :=
  {| connectionStep := connectionStep st; selectedTab := selectedTab st;
     indexingStatus := s; fileStructure := fileStructure st;
     startPolling := startPolling st; pollInterval := pollInterval st;
     console := console st; status_requests := status_requests st;
     tree_requests := tree_requests st;
     published := (published st ++ [s])%list |}.

Definition setFileStructure (f : FileStructure) (st : Index) : Index :=
  {| connectionStep := connectionStep st; selectedTab := selectedTab st;
     indexingStatus := indexingStatus st; fileStructure := f;
     startPolling := startPolling st; pollInterval := pollInterval st;
     console := console st; status_requests := status_requests st;
     tree_requests := tree_requests st; published := published st |}.

Definition set_interval (live : bool) (st : Index) : Index :=
  {| connectionStep := connectionStep st; selectedTab := selectedTab st;
     indexingStatus := indexingStatus st; fileStructure := fileStructure st;
     startPolling := startPolling st; pollInterval := live;
     console := console st; status_requests := status_requests st;
     tree_requests := tree_requests st; published := published st |}.

Definition clearInterval : Index -> Index := set_interval false.

Definition write_console (l : list log_entry) (st : Index) : Index :=
  {| connectionStep := connectionStep st; selectedTab := selectedTab st;
     indexingStatus := indexingStatus st; fileStructure := fileStructure st;
     startPolling := startPolling st; pollInterval := pollInterval st;
     console := (console st ++ l)%list;
     status_requests := status_requests st;
     tree_requests := tree_requests st; published := published st |}.

Definition count_status_request (st : Index) : Index :=
  {| connectionStep := connectionStep st; selectedTab := selectedTab st;
     indexingStatus := indexingStatus st; fileStructure := fileStructure st;
     startPolling := startPolling st; pollInterval := pollInterval st;
     console := console st; status_requests := S (status_requests st);
     tree_requests := tree_requests st; published := published st |}.

Definition count_tree_request (st : Index) : Index :=
  {| connectionStep := connectionStep st; selectedTab := selectedTab st;
     indexingStatus := indexingStatus st; fileStructure := fileStructure st;
     startPolling := startPolling st; pollInterval := pollInterval st;
     console := console st; status_requests := status_requests st;
     tree_requests := S (tree_requests st); published := published st |}.

(** [handleSourceLoaded], followed by the effect it triggers: the
    interval is created when [startPolling] becomes true. *)
Definition handleSourceLoaded (st : Index) : Index :=
  let st := setSelectedTab TabStatus st in
  {| connectionStep := connectionStep st; selectedTab := selectedTab st;
     indexingStatus := indexingStatus st; fileStructure := fileStructure st;
     startPolling := true; pollInterval := true;
     console := console st; status_requests := status_requests st;
     tree_requests := tree_requests st; published := published st |}.

(** The effect's cleanup. *)
Definition cleanup : Index -> Index := clearInterval.

(** How the network answers one tick: the status request, and the
    file-structure request should the callback issue it. *)
Record Answers : Type := {
  status_net : fetch_outcome IndexingStatus;
  tree_net : fetch_outcome FileStructure
}.

(** [status.progress === 100 && !status.is_indexing] *)
Definition indexing_complete (status : IndexingStatus) : bool :=
  (progress status =? 100)%Z && negb (is_indexing status).

(** The callback from the point where its status request is answered to
    its end. *)
Definition on_status_answer (net : Answers) (st : Index) : Index :=
  match getIndexingStatus (status_net net) with
  | (logs, Return status) =>
      let st := write_console logs st in
      let st := setIndexingStatus status st in
      if indexing_complete status then
        let st := clearInterval st in
        let st := count_tree_request st in
        let st :=
          match getFileStructure (tree_net net) with
          | (logs', Return structure) =>
              setFileStructure structure (write_console logs' st)
          | (logs', Throw error) =>
              write_console
                (logs' ++ [Log "Error loading file structure:" error])%list st
          end in
        setSelectedTab TabChat st
      else st
  | (logs, Throw error) =>
      write_console
        (logs ++ [Log "Error polling indexing status:" error])%list st
  end.

(** The interval callback, run to its end on one tick. *)
Definition poll_callback (net : Answers) (st : Index) : Index :=
  on_status_answer net (count_status_request st).

(** The timer: a tick fires only while the interval is set, and each
    callback finishes before the next tick. *)
Fixpoint run_poller (ticks : list Answers) (st : Index) : Index :=
  match ticks with
  | [] => st
  | net :: later =>
      if pollInterval st then run_poller later (poll_callback net st)
      else st
  end.

(** The same timer when answers may be slow: a tick starts a callback,
    which issues its request, and the request is answered at some later
    point, possibly after further ticks.  A cleared interval fires no
    tick. *)
Inductive PollEvent : Type :=
| Tick
| Answered (net : Answers).

Definition poll_event (st : Index) (ev : PollEvent) : Index :=
  match ev with
  | Tick => if pollInterval st then count_status_request st else st
  | Answered net => on_status_answer net st
  end.

Definition run_events (evs : list PollEvent) (st : Index) : Index :=
  fold_left poll_event evs st.

(** The status a tick's answer is published as. *)
Definition poll_response (net : Answers) : IndexingStatus :=
  match snd (getIndexingStatus (status_net net)) with
  | Return status => status
  | Throw e => status_fallback e
  end.

(** The statuses answered in a run of events, and how many of them
    report completion. *)
Fixpoint answered (evs : list PollEvent) : list IndexingStatus :=
  match evs with
  | [] => []
  | Tick :: rest => answered rest
  | Answered net :: rest => poll_response net :: answered rest
  end.

Definition completions (evs : list PollEvent) : nat :=
  length (filter indexing_complete (answered evs)).

(** Concrete answers used in the runs below. *)
Definition answer_with (s : IndexingStatus) : Answers :=
  {| status_net :=
       Resolved {| status := 200; json_body := Return s; body := None |};
     tree_net :=
       Resolved {| status := 200;
                   json_body :=
                     Return {| fs_success := true;
                               structure_root :=
                                 [("src",
                                   DirectoryNode
                                     [("main.ts",
                                       FileNode "typescript" "src/main.ts")])];
                               fs_error := None |};
                   body := None |} |}.

Definition tick_40 : Answers :=
  answer_with {| is_indexing := true; progress := 40;
                 message := "Indexing files"; stats := no_stats;
                 error := None |}.

Definition tick_100 : Answers :=
  answer_with {| is_indexing := false; progress := 100;
                 message := "Indexing complete"; stats := no_stats;
                 error := None |}.

(** The backend reports an error in the status itself. *)
Definition tick_error : Answers :=
  answer_with {| is_indexing := false; progress := 40;
                 message := "Indexing failed"; stats := no_stats;
                 error := Some "disk full" |}.

(** The request itself fails. *)
Definition tick_unreachable : Answers :=
  {| status_net := Rejected (ErrorObj "Failed to fetch");
     tree_net := Rejected (ErrorObj "Failed to fetch") |}.

End Poller.

(* ================================================================== *)
(** ** A reader for JSON text *)
(* ================================================================== *)
(** The chat components call the platform's [JSON.parse]; their
    embeddings take the parser as a parameter.  [JsonText.parse] is a
    reader for the part of the JSON grammar the stream protocol uses
    (objects, arrays, strings with the one-letter escapes, integers and
    the three literals); the concrete runs below are evaluated with it. *)
Module JsonText.
Import JS.

Definition is_ws (c : ascii) : bool :=
  let n := nat_of_ascii c in
  (n =? 32)%nat || (n =? 9)%nat || (n =? 10)%nat || (n =? 13)%nat.

Fixpoint skip_ws (s : string) : string :=
  match s with
  | String c s' => if is_ws c then skip_ws s' else s
  | EmptyString => s
  end.

Definition unescape (c : ascii) : option ascii :=
  if Ascii.eqb c quote then Some quote
  else
    match c with
    | "\"%char => Some "\"%char
    | "/"%char => Some "/"%char
    | "n"%char => Some "010"%char
    | "t"%char => Some "009"%char
    | "r"%char => Some "013"%char
    | "b"%char => Some "008"%char
    | "f"%char => Some "012"%char
    | _ => None
    end.

(** The characters of a string literal after its opening quote, and
    the text after its closing quote. *)
Fixpoint string_tail (s : string) : option (string * string) :=
  match s with
  | EmptyString => None
  | String c s' =>
      if Ascii.eqb c quote then Some (EmptyString, s')
      else if Ascii.eqb c "\" then
        match s' with
        | String e s'' =>
            match unescape e, string_tail s'' with
            | Some ch, Some (str, rest) => Some (String ch str, rest)
            | _, _ => None
            end
        | EmptyString => None
        end
      else if (nat_of_ascii c <? 32)%nat then None
      else
        match string_tail s' with
        | Some (str, rest) => Some (String c str, rest)
        | None => None
        end
  end.

Definition digit (c : ascii) : option Z :=
  let n := nat_of_ascii c in
  if ((48 <=? n) && (n <=? 57))%nat then Some (Z.of_nat (n - 48)) else None.

(** Reads the digits in front of [s] onto the number [acc]. *)
Fixpoint digits (acc : Z) (s : string) : Z * string :=
  match s with
  | String c s' =>
      match digit c with
      | Some d => digits (10 * acc + d)%Z s'
      | None => (acc, s)
      end
  | EmptyString => (acc, s)
  end.

(** An integer literal without sign: one digit, not a zero followed by
    more digits, and no fraction or exponent after it. *)
Definition natural (s : string) : option (Z * string) :=
  match s with
  | String c s' =>
      match digit c with
      | Some d =>
          let '(n, rest) := digits d s' in
          let bad_next :=
            match rest with
            | String x _ =>
                Ascii.eqb x "." || Ascii.eqb x "e" || Ascii.eqb x "E"
            | EmptyString => false
            end in
          let leading_zero :=
            (d =? 0)%Z &&
            match s' with
            | String x _ => match digit x with Some _ => true | None => false end
            | EmptyString => false
            end in
          if bad_next || leading_zero then None else Some (n, rest)
      | None => None
      end
  | EmptyString => None
  end.

Definition literal (word : string) (v : json) (s : string)
  : option (json * string) :=
  if startsWith s word
  then Some (v, substring_from (String.length word) s)
  else None.

(** [value] reads one value; [elements] and [members] read what
    follows the first element of an array or the first member of an
    object.  [fuel] bounds the nesting and the number of items. *)
Fixpoint value (fuel : nat) (s : string) : option (json * string) :=
  match fuel with
  | O => None
  | S fuel' =>
      match skip_ws s with
      | String c rest =>
          if Ascii.eqb c quote then
            match string_tail rest with
            | Some (str, rest') => Some (JStr str, rest')
            | None => None
            end
          else if Ascii.eqb c "{" then
            match skip_ws rest with
            | String "}" rest' => Some (JObj [], rest')
            | after => members fuel' after []
            end
          else if Ascii.eqb c "[" then
            match skip_ws rest with
            | String "]" rest' => Some (JArr [], rest')
            | after => elements fuel' after []
            end
          else if Ascii.eqb c "-" then
            match natural rest with
            | Some (n, rest') => Some (JNum (- n), rest')
            | None => None
            end
          else if Ascii.eqb c "t" then literal "true" (JBool true) (String c rest)
          else if Ascii.eqb c "f" then literal "false" (JBool false) (String c rest)
          else if Ascii.eqb c "n" then literal "null" JNull (String c rest)
          else
            match natural (String c rest) with
            | Some (n, rest') => Some (JNum n, rest')
            | None => None
            end
      | EmptyString => None
      end
  end
with elements (fuel : nat) (s : string) (seen : list json)
  : option (json * string) :=
  match fuel with
  | O => None
  | S fuel' =>
      match value fuel' s with
      | Some (v, rest) =>
          match skip_ws rest with
          | String "," rest' => elements fuel' rest' (seen ++ [v])%list
          | String "]" rest' => Some (JArr (seen ++ [v])%list, rest')
          | _ => None
          end
      | None => None
      end
  end
with members (fuel : nat) (s : string) (seen : list (string * json))
  : option (json * string) :=
  match fuel with
  | O => None
  | S fuel' =>
      match skip_ws s with
      | String c rest =>
          if Ascii.eqb c quote then
            match string_tail rest with
            | Some (key, rest1) =>
                match skip_ws rest1 with
                | String ":" rest2 =>
                    match value fuel' rest2 with
                    | Some (v, rest3) =>
                        match skip_ws rest3 with
                        | String "," rest4 =>
                            members fuel' rest4 (seen ++ [(key, v)])%list
                        | String "}" rest4 =>
                            Some (JObj (seen ++ [(key, v)])%list, rest4)
                        | _ => None
                        end
                    | None => None
                    end
                | _ => None
                end
            | None => None
            end
          else None
      | EmptyString => None
      end
  end.

(** [JSON.parse(text)]: one value, nothing but white space after it;
    anything else is a [SyntaxError]. *)
Definition parse (text : string) : completion json :=
  match value (S (String.length text)) text with
  | Some (v, rest) =>
      match skip_ws rest with
      | EmptyString => Return v
      | _ => Throw (ErrorObj "Unexpected non-whitespace character after JSON")
      end
  | None => Throw (ErrorObj "Unexpected token in JSON")
  end.

End JsonText.

(* ================================================================== *)
(** ** The [CodeChat] component that reads the response stream *)
(* ================================================================== *)
(** [handleSendMessage] asks [CodeIndicesService.queryCode(input, true)]
    for a stream, reads it to its end, and then asks once more, without
    streaming, for the relevant files.  Every [setMessages] call after the
    two messages are appended goes through [messages.map] on
    [msg.id === assistantLoadingMessage.id]. *)
Module StreamChat.
Import JS Service.

Inductive Role : Type := user | assistant.

Record ChatMessageType : Type := {
  id : string;
  content : string;
  role : Role;
  timestamp : nat;
  isLoading : option bool;               (* isLoading?: boolean *)
  relevantFiles : option (list string)   (* relevantFiles?: string[] *)
}.

Record Toast : Type := {
  title : string;
  description : string;
  variant : string
}.

(** Component state; [loading] is the component's own [isLoading]. *)
Record CodeChat : Type := {
  messages : list ChatMessageType;
  input : string;
  loading : bool;
  console : list log_entry;
  toasts : list Toast
}.

Definition initial : CodeChat :=
  {| messages := []; input := ""; loading := false;
     console := []; toasts := [] |}.

Definition setMessages
    (f : list ChatMessageType -> list ChatMessageType) (st : CodeChat)
  : CodeChat :=
  {| messages := f (messages st); input := input st; loading := loading st;
     console := console st; toasts := toasts st |}.

Definition setInput (text : string) (st : CodeChat) : CodeChat :=
  {| messages := messages st; input := text; loading := loading st;
     console := console st; toasts := toasts st |}.

Definition setIsLoading (b : bool) (st : CodeChat) : CodeChat :=
  {| messages := messages st; input := input st; loading := b;
     console := console st; toasts := toasts st |}.

Definition write_console (l : list log_entry) (st : CodeChat) : CodeChat :=
  {| messages := messages st; input := input st; loading := loading st;
     console := (console st ++ l)%list; toasts := toasts st |}.

Definition toast (t : Toast) (st : CodeChat) : CodeChat :=
  {| messages := messages st; input := input st; loading := loading st;
     console := console st; toasts := (toasts st ++ [t])%list |}.

(** [messages.map(msg => msg.id === target ? f(msg) : msg)] *)
Definition update_by_id (target : string)
    (f : ChatMessageType -> ChatMessageType) (ms : list ChatMessageType)
  : list ChatMessageType :=
  map (fun msg => if String.eqb (id msg) target then f msg else msg) ms.

(** [after] is [before] with nothing moved, added or removed, and with
    every message whose id is not [target] unchanged. *)
Definition only_target (target : string)
    (before after : list ChatMessageType) : Prop :=
  length after = length before
  /\ forall k m,
       nth_error before k = Some m ->
       id m <> target ->
       nth_error after k = Some m.

(** [{ ...msg, content: text, isLoading: false }] *)
Definition with_content (text : string) (msg : ChatMessageType)
  : ChatMessageType :=
  {| id := id msg; content := text; role := role msg;
     timestamp := timestamp msg; isLoading := Some false;
     relevantFiles := relevantFiles msg |}.

(** [{ ...msg, relevantFiles }] *)
Definition with_relevantFiles (files : list string) (msg : ChatMessageType)
  : ChatMessageType :=
  {| id := id msg; content := content msg; role := role msg;
     timestamp := timestamp msg; isLoading := isLoading msg;
     relevantFiles := Some files |}.

(** The variables of one [handleSendMessage] call that outlive its
    first [await]. *)
Record Locals : Type := {
  assistantLoadingMessage_id : string;
  query : string;                (* [input] as the call captured it *)
  responseText : string
}.

Definition add_text (text : string) (lo : Locals) : Locals :=
  {| assistantLoadingMessage_id := assistantLoadingMessage_id lo;
     query := query lo;
     responseText := responseText lo ++ text |}.

(** What the environment hands to one call: two [uuidv4()] results, two
    [new Date()] readings and the answers to its two requests. *)
Record Call : Type := {
  uuid_user : string;
  uuid_assistant : string;
  date_user : nat;
  date_assistant : nat;
  stream_net : fetch_outcome (option LLMResponse);
  followup_net : fetch_outcome (option LLMResponse)
}.

Definition userMessage (c : Call) (text : string) : ChatMessageType :=
  {| id := uuid_user c; content := text; role := user;
     timestamp := date_user c; isLoading := None; relevantFiles := None |}.

Definition assistantLoadingMessage (c : Call) : ChatMessageType :=
  {| id := uuid_assistant c; content := ""; role := assistant;
     timestamp := date_assistant c; isLoading := Some true;
     relevantFiles := None |}.

(** The synchronous start of the call, after its guard: both messages
    appended, the input cleared, the component marked loading. *)
Definition begin (c : Call) (st : CodeChat) : Locals * CodeChat :=
  let text := input st in
  let st :=
    setMessages
      (fun messages =>
         (messages ++ [userMessage c text; assistantLoadingMessage c])%list)
      st in
  let st := setInput "" st in
  let st := setIsLoading true st in
  ({| assistantLoadingMessage_id := uuid_assistant c;
      query := text; responseText := "" |}, st).

Definition blank_line : string := String LF (String LF EmptyString).

Section Reader.
(** The platform's [JSON.parse]. *)
Variable JSON_parse : string -> completion json.

(** The body of the [try] inside the [for] loop, for one [line] that
    starts with ["data: "]. *)
Definition parse_and_apply (line : string) (lo : Locals) (st : CodeChat)
  : completion (Locals * CodeChat) :=
  match JSON_parse (substring_from 6 line) with
  | Throw e => Throw e
  | Return data =>
      match get data "chunk" with
      | Throw e => Throw e
      | Return chunk =>
          if truthy chunk then
            let lo' :=
              add_text (match chunk with Some v => ToString v
                                       | None => "undefined" end) lo in
            Return
              (lo',
               setMessages
                 (update_by_id (assistantLoadingMessage_id lo)
                    (with_content (responseText lo')))
                 st)
          else
            match get data "error" with
            | Throw e => Throw e
            | Return err =>
                if truthy err then
                  Throw (ErrorObj (match err with Some v => ToString v
                                                | None => "" end))
                else
                  match get data "done" with
                  | Throw e => Throw e
                  | Return _ => Return (lo, st)   (* nothing to do *)
                  end
            end
      end
  end.

(** One iteration of [for (const line of lines)]. *)
Definition on_line (line : string) (lo : Locals) (st : CodeChat)
  : Locals * CodeChat :=
  if startsWith line "data: " then
    match parse_and_apply line lo st with
    | Return next => next
    | Throw e => (lo, write_console [Log "Error parsing SSE data:" e] st)
    end
  else (lo, st).

Fixpoint on_lines (lines : list string) (lo : Locals) (st : CodeChat)
  : Locals * CodeChat :=
  match lines with
  | [] => (lo, st)
  | line :: rest =>
      let '(lo', st') := on_line line lo st in on_lines rest lo' st'
  end.

(** One successful [reader.read()]: the decoded text is split on blank
    lines and each piece handled on its own. *)
Definition on_read (chunk : string) (lo : Locals) (st : CodeChat)
  : Locals * CodeChat :=
  on_lines (split chunk blank_line) lo st.

(** The [while (true)] loop over the reads that deliver a value. *)
Fixpoint read_loop (values : list string) (lo : Locals) (st : CodeChat)
  : Locals * CodeChat :=
  match values with
  | [] => (lo, st)
  | value :: rest =>
      let '(lo', st') := on_read value lo st in read_loop rest lo' st'
  end.

(** After the loop: the second, buffered query for the relevant
    files.  The result is the state reached and the exception that
    leaves the [try] block, if any. *)
Definition follow_up (c : Call) (lo : Locals) (st : CodeChat)
  : CodeChat * option thrown :=
  match queryCode (query lo) false (followup_net c) with
  | (logs, Throw e) => (write_console logs st, Some e)
  | (logs, Return fullResponse) =>
      let st := write_console logs st in
      match fullResponse with
      | Buffered None => (st, Some (ErrorObj "Invalid response format"))
      | Buffered (Some typedResponse) =>
          match success typedResponse, relevant_files typedResponse with
          | true, Some files =>
              (setMessages
                 (update_by_id (assistantLoadingMessage_id lo)
                    (with_relevantFiles files))
                 st, None)
          | _, _ => (st, None)
          end
      | Streamed _ => (st, None)   (* not returned without [stream] *)
      end
  end.

(** The [try] block. *)
Definition try_block (c : Call) (lo : Locals) (st : CodeChat)
  : CodeChat * option thrown :=
  match queryCode (query lo) true (stream_net c) with
  | (logs, Throw e) => (write_console logs st, Some e)
  | (logs, Return result) =>
      let st := write_console logs st in
      match result with
      | Streamed None =>
          (st, Some (ErrorObj "Failed to get response stream"))
      | Buffered _ =>
          (* the service's fallback object has no [getReader] *)
          (st, Some (ErrorObj "stream.getReader is not a function"))
      | Streamed (Some stream) =>
          let '(lo', st') := read_loop (reads stream) lo st in
          match ending stream with
          | Errored e => (st', Some e)
          | Done => follow_up c lo' st'
          end
      end
  end.

Definition sorry : string := "Sorry, I couldn't process your request. ".

(** [{ ...msg, content: `Sorry, ... ${...}`, isLoading: false }] *)
Definition failure_text (error : thrown) : string :=
  sorry ++ match error with
           | ErrorObj m => m
           | NonError _ => "An unknown error occurred."
           end.

(** The [catch] block. *)
Definition catch_block (lo : Locals) (error : thrown) (st : CodeChat)
  : CodeChat :=
  let st := write_console [Log "Error querying code:" error] st in
  let st :=
    setMessages
      (update_by_id (assistantLoadingMessage_id lo)
         (with_content (failure_text error)))
      st in
  toast {| title := "Query Error";
           description := match error with
                          | ErrorObj m => m
                          | NonError _ => "Failed to query the codebase"
                          end;
           variant := "destructive" |} st.

(** Everything after the two messages are appended: [try], [catch],
    [finally]. *)
Definition settle (c : Call) (lo : Locals) (st : CodeChat) : CodeChat :=
  let '(st, exn) := try_block c lo st in
  let st := match exn with
            | Some error => catch_block lo error st
            | None => st
            end in
  setIsLoading false st.

Definition handleSendMessage (c : Call) (st : CodeChat) : CodeChat :=
  if trim_is_empty (input st) then st
  else let '(lo, st) := begin c st in settle c lo st.

(** *** Reading the loop body line by line

    The next definitions name what the branches of the loop body do
    with a line; the properties are stated with them. *)

(** The payload of a data line fails to parse. *)
Definition malformed (line : string) : bool :=
  startsWith line "data: " &&
  match JSON_parse (substring_from 6 line) with
  | Throw _ => true
  | Return _ => false
  end.

(** The text a line adds to the answer: a data line whose payload
    parses to a value with a truthy [chunk]. *)
Definition fragment_of (line : string) : option string :=
  if startsWith line "data: " then
    match JSON_parse (substring_from 6 line) with
    | Throw _ => None
    | Return data =>
        match get data "chunk" with
        | Throw _ => None
        | Return chunk =>
            if truthy chunk
            then Some (match chunk with Some v => ToString v
                                      | None => "undefined" end)
            else None
        end
    end
  else None.

Fixpoint fragments (lines : list string) : list string :=
  match lines with
  | [] => []
  | line :: rest =>
      match fragment_of line with
      | Some text => text :: fragments rest
      | None => fragments rest
      end
  end.

(** What a line writes to the console: the exception caught by the
    [catch] inside the loop, if the line raises one. *)
Definition line_log (line : string) : list log_entry :=
  if startsWith line "data: " then
    match JSON_parse (substring_from 6 line) with
    | Throw e => [Log "Error parsing SSE data:" e]
    | Return data =>
        match get data "chunk" with
        | Throw e => [Log "Error parsing SSE data:" e]
        | Return chunk =>
            if truthy chunk then []
            else
              match get data "error" with
              | Throw e => [Log "Error parsing SSE data:" e]
              | Return err =>
                  if truthy err
                  then [Log "Error parsing SSE data:"
                          (ErrorObj (match err with Some v => ToString v
                                                  | None => "" end))]
                  else []
              end
        end
    end
  else [].

(** What a run of lines writes to the console. *)
Fixpoint logs_of (lines : list string) : list log_entry :=
  match lines with
  | [] => []
  | line :: rest => (line_log line ++ logs_of rest)%list
  end.

(** The text of a read that carries whole records, each closed by a
    blank line. *)
Fixpoint wire (records : list string) : string :=
  match records with
  | [] => ""
  | r :: rest => r ++ blank_line ++ wire rest
  end.

(** The input element: [onChange] sets the input, and the element is
    [disabled={isLoading}], so it hands over no text while a call is
    in flight. *)
Definition onChange (text : string) (st : CodeChat) : CodeChat :=
  if loading st then st else setInput text st.

End Reader.

End StreamChat.

(* ================================================================== *)
(** ** components/CodeChat.tsx: the [CodeChat] component on [EventSource] *)
(* ================================================================== *)
(** [handleSendMessage] opens an [EventSource] and registers three
    handlers on it; the browser frames the stream and hands each record's
    data to [onmessage].  A content chunk is added to the last message of
    the list. *)
Module EventChat.
Import JS.

Inductive ChatMessageType : Type := USER | ASSISTANT.

Record ChatMessage : Type := {
  id : string;
  type : ChatMessageType;
  content : string;
  timestamp : nat;
  isLoading : option bool;
  relevantFiles : option (list string)
}.

Record Toast : Type := {
  title : string;
  description : string;
  variant : string
}.

(** Component state ([loading] is its [isLoading]), and the
    [EventSource] objects created so far: [true] while open. *)
Record CodeChat : Type := {
  messages : list ChatMessage;
  input : string;
  loading : bool;
  relevantFiles_state : json;
  console : list log_entry;
  toasts : list Toast;
  sources : list bool
}.

Definition initial : CodeChat :=
  {| messages := []; input := ""; loading := false;
     relevantFiles_state := JObj []; console := []; toasts := [];
     sources := [] |}.

Definition setMessages (f : list ChatMessage -> list ChatMessage)
    (st : CodeChat) : CodeChat :=
  {| messages := f (messages st); input := input st; loading := loading st;
     relevantFiles_state := relevantFiles_state st; console := console st;
     toasts := toasts st; sources := sources st |}.

Definition setInput (text : string) (st : CodeChat) : CodeChat :=
  {| messages := messages st; input := text; loading := loading st;
     relevantFiles_state := relevantFiles_state st; console := console st;
     toasts := toasts st; sources := sources st |}.

Definition setIsLoading (b : bool) (st : CodeChat) : CodeChat :=
  {| messages := messages st; input := input st; loading := b;
     relevantFiles_state := relevantFiles_state st; console := console st;
     toasts := toasts st; sources := sources st |}.

Definition setRelevantFiles (v : json) (st : CodeChat) : CodeChat :=
  {| messages := messages st; input := input st; loading := loading st;
     relevantFiles_state := v; console := console st;
     toasts := toasts st; sources := sources st |}.

Definition write_console (l : list log_entry) (st : CodeChat) : CodeChat :=
  {| messages := messages st; input := input st; loading := loading st;
     relevantFiles_state := relevantFiles_state st;
     console := (console st ++ l)%list;
     toasts := toasts st; sources := sources st |}.

Definition toast (t : Toast) (st : CodeChat) : CodeChat :=
  {| messages := messages st; input := input st; loading := loading st;
     relevantFiles_state := relevantFiles_state st; console := console st;
     toasts := (toasts st ++ [t])%list; sources := sources st |}.

Definition set_sources (l : list bool) (st : CodeChat) : CodeChat :=
  {| messages := messages st; input := input st; loading := loading st;
     relevantFiles_state := relevantFiles_state st; console := console st;
     toasts := toasts st; sources := l |}.

Fixpoint close_nth (k : nat) (l : list bool) : list bool :=
  match l, k with
  | [], _ => []
  | _ :: rest, O => false :: rest
  | b :: rest, S k' => b :: close_nth k' rest
  end.

(** [eventSource.close()] on the [k]-th source. *)
Definition close (k : nat) (st : CodeChat) : CodeChat :=
  set_sources (close_nth k (sources st)) st.

Definition is_open (k : nat) (st : CodeChat) : bool :=
  nth k (sources st) false.

(** Four clock readings of one call: [Date.now()] and [new Date()] for
    each of the two messages. *)
Record Clock : Type := {
  now_user : nat;
  date_user : nat;
  now_assistant : nat;
  date_assistant : nat
}.

(** The updater of the chunk branch: [lastMessage] is
    [newMessages[newMessages.length - 1]].  (On an empty list the
    updater would fail; a handler exists only after two messages were
    appended, and messages are never removed.) *)
Definition append_to_last (text : string) (prev : list ChatMessage)
  : list ChatMessage :=
  match rev prev with
  | [] => prev
  | lastMessage :: earlier =>
      match type lastMessage with
      | ASSISTANT =>
          (rev earlier ++
           [{| id := id lastMessage; type := type lastMessage;
               content := content lastMessage ++ text;
               timestamp := timestamp lastMessage;
               isLoading := Some false;
               relevantFiles := relevantFiles lastMessage |}])%list
      | USER => prev
      end
  end.

Definition handleSendMessage (clk : Clock) (st : CodeChat) : CodeChat :=
  if trim_is_empty (input st) || loading st then st
  else
    let text := input st in
    let st :=
      setMessages
        (fun prev =>
           (prev ++ [{| id := nat_to_string (now_user clk);
                        type := USER; content := text;
                        timestamp := date_user clk;
                        isLoading := Some false;
                        relevantFiles := None |}])%list) st in
    let st :=
      setMessages
        (fun prev =>
           (prev ++ [{| id := nat_to_string (now_assistant clk + 1);
                        type := ASSISTANT; content := "";
                        timestamp := date_assistant clk;
                        isLoading := Some true;
                        relevantFiles := None |}])%list) st in
    let st := setIsLoading true st in
    let st := setInput "" st in
    (* new EventSource(...), with its handlers *)
    set_sources (sources st ++ [true])%list st.

Section Handlers.
(** The platform's [JSON.parse]. *)
Variable JSON_parse : string -> completion json.

Definition text_of (v : option json) : string :=
  match v with Some x => ToString x | None => "undefined" end.

(** The [try] body of [eventSource.onmessage]. *)
Definition message_body (event_data : string) (st : CodeChat)
  : completion CodeChat :=
  match JSON_parse event_data with
  | Throw e => Throw e
  | Return data =>
      match get data "relevant_files" with
      | Throw e => Throw e
      | Return files =>
          if truthy files then
            Return (setRelevantFiles
                      (match files with Some v => v | None => JNull end) st)
          else
            match get data "chunk" with
            | Throw e => Throw e
            | Return chunk =>
                if truthy chunk then
                  Return (setMessages (append_to_last (text_of chunk)) st)
                else
                  match get data "error" with
                  | Throw e => Throw e
                  | Return err =>
                      if truthy err then
                        Return
                          (setIsLoading false
                             (toast {| title := "Error";
                                       description := text_of err;
                                       variant := "destructive" |} st))
                      else
                        match get data "done" with
                        | Throw e => Throw e
                        | Return done =>
                            if truthy done
                            then Return (setIsLoading false st)
                            else Return st
                        end
                  end
            end
      end
  end.

(** [eventSource.onmessage] of the [k]-th source; a closed source
    delivers nothing. *)
Definition onmessage (k : nat) (event_data : string) (st : CodeChat)
  : CodeChat :=
  if is_open k st then
    match message_body event_data st with
    | Return st' => st'
    | Throw error =>
        toast {| title := "Error";
                 description := "Failed to parse server response";
                 variant := "destructive" |}
          (write_console [Log "Error parsing message:" error] st)
    end
  else st.

(** [eventSource.onerror] *)
Definition onerror (k : nat) (error : thrown) (st : CodeChat) : CodeChat :=
  if is_open k st then
    let st := write_console [Log "EventSource error:" error] st in
    let st := close k st in
    let st := setIsLoading false st in
    toast {| title := "Error";
             description :=
               "Failed to get response from server. Please try again.";
             variant := "destructive" |} st
  else st.

(** The listener for events named [done]. *)
Definition on_done_event (k : nat) (st : CodeChat) : CodeChat :=
  if is_open k st then setIsLoading false (close k st) else st.

(** The input element, [disabled={isLoading}]. *)
Definition onChange (text : string) (st : CodeChat) : CodeChat :=
  if loading st then st else setInput text st.

(** What can happen to the component. *)
Inductive Event : Type :=
| Typed (text : string)
| Send (clk : Clock)
| Message (k : nat) (event_data : string)
| Failed (k : nat) (error : thrown)
| DoneEvent (k : nat).

Definition step (st : CodeChat) (ev : Event) : CodeChat :=
  match ev with
  | Typed text => onChange text st
  | Send clk => handleSendMessage clk st
  | Message k event_data => onmessage k event_data st
  | Failed k error => onerror k error st
  | DoneEvent k => on_done_event k st
  end.

Definition run (evs : list Event) (st : CodeChat) : CodeChat :=
  fold_left step evs st.

(** A message event whose data fails to parse. *)
Definition malformed_event (ev : Event) : bool :=
  match ev with
  | Message _ event_data =>
      match JSON_parse event_data with
      | Throw _ => true
      | Return _ => false
      end
  | _ => false
  end.

(** Two states that agree on everything but the console and the toasts. *)
Definition same_view (a b : CodeChat) : Prop :=
  messages a = messages b
  /\ input a = input b
  /\ loading a = loading b
  /\ relevantFiles_state a = relevantFiles_state b
  /\ sources a = sources b.

End Handlers.

End EventChat.

(* ================================================================== *)
(** ** Concrete runs *)
(* ================================================================== *)
Module Scenarios.
Import JS Service.

(** JSON text: [q s] is the string literal for [s]; [member k v] is the
    object with the single member [k]. *)
Definition q (s : string) : string := String quote (s ++ String quote "").
Definition member (key value : string) : string :=
  "{" ++ q key ++ ":" ++ value ++ "}".

Definition chunk_payload (text : string) : string := member "chunk" (q text).
Definition error_payload (text : string) : string := member "error" (q text).
Definition done_payload : string := member "done" "true".

(** A record as the backend writes it: the payload after ["data: "],
    closed by a blank line. *)
Definition record (payload : string) : string :=
  "data: " ++ payload ++ StreamChat.blank_line.

(** The answer to the streaming query: status 200 and a body that
    delivers [values] and then ends as [e]. *)
Definition stream_of (values : list string) (e : stream_end)
  : fetch_outcome (option LLMResponse) :=
  Resolved {| status := 200;
              json_body := Throw (ErrorObj "the body is a stream");
              body := Some {| reads := values; ending := e |} |}.

(** The answer to the buffered query that follows. *)
Definition files_answer (files : list string)
  : fetch_outcome (option LLMResponse) :=
  Resolved {| status := 200;
              json_body :=
                Return (Some {| success := true;
                                response := "The entry point is src/main.ts.";
                                model := Some "deepseek-coder";
                                relevant_files := Some files;
                                llm_error := None |});
              body := None |}.

(** The [n]-th call of the stream reader's [handleSendMessage]. *)
Definition call (n : nat) (values : list string) (e : stream_end)
  : StreamChat.Call :=
  {| StreamChat.uuid_user := "user-" ++ nat_to_string n;
     StreamChat.uuid_assistant := "assistant-" ++ nat_to_string n;
     StreamChat.date_user := n;
     StreamChat.date_assistant := n;
     StreamChat.stream_net := stream_of values e;
     StreamChat.followup_net := files_answer ["src/main.ts"] |}.

(** The stream reader's component after the user typed a question. *)
Definition asked (text : string) : StreamChat.CodeChat :=
  StreamChat.onChange text StreamChat.initial.

(** The locals of call [n] and the state right after its two messages
    were appended. *)
Definition started (n : nat) (text : string)
  : StreamChat.Locals * StreamChat.CodeChat :=
  StreamChat.begin (call n [] Done) (asked text).

Definition hello_reads : list string :=
  [record (chunk_payload "Hel"); record (chunk_payload "lo");
   record done_payload].

Definition boom_reads : list string :=
  [record (chunk_payload "A"); record (error_payload "boom")].

(** One record cut in two by the transport, and the same text in one
    piece. *)
Definition cut_reads : list string :=
  ["data: {" ++ q "chunk" ++ ":" ++ String quote "Hel";
   "lo" ++ String quote "}" ++ StreamChat.blank_line].

Definition uncut_reads : list string := [record (chunk_payload "Hello")].

(** The event source component's clock readings for call [n]. *)
Definition clock (n : nat) : EventChat.Clock :=
  {| EventChat.now_user := n; EventChat.date_user := n;
     EventChat.now_assistant := n; EventChat.date_assistant := n |}.

End Scenarios.

From Stdlib Require DecimalNat DecimalFacts.
From Stdlib Require Import Sorted Permutation.

(* ================================================================== *)
(** ** Whole calls of the stream reader: vocabulary *)
(* ================================================================== *)
Module Calls.
Import JS Service StreamChat.

(** The error with which the streaming request fails, if it does: a
    rejected [fetch] or a status outside 200..299.  (The body is not
    parsed by [queryCode] when it streams.) *)
Definition stream_failure {A} (net : fetch_outcome A) : option thrown :=
  match net with
  | Rejected e => Some e
  | Resolved r =>
      if ok r then None
      else Some (ErrorObj ("HTTP error " ++ nat_to_string (status r)))
  end.

(** An update of a message that leaves its id, role and timestamp. *)
Definition keeps_identity (f : ChatMessageType -> ChatMessageType) : Prop :=
  forall m, id (f m) = id m /\ role (f m) = role m
            /\ timestamp (f m) = timestamp m.

(** [st'] comes from [st] by updates of the messages with id [target]
    that keep their identity, and by writing to the console and showing
    toasts; the input is as before. *)
Definition touches_only (target : string) (st st' : CodeChat) : Prop :=
  exists f logs shown,
    keeps_identity f
    /\ messages st' = update_by_id target f (messages st)
    /\ input st' = input st
    /\ console st' = (console st ++ logs)%list
    /\ toasts st' = (toasts st ++ shown)%list.

(** What V8 reports when [getReader] is called on the service's
    fallback object. *)
Definition not_a_stream : thrown :=
  ErrorObj "stream.getReader is not a function".

End Calls.

(* ================================================================== *)
(** ** Runs of the event source component: vocabulary *)
(* ================================================================== *)
Module EventRuns.
Import JS EventChat.

(** The event was delivered by the [k]-th source. *)
Definition from_source (k : nat) (ev : Event) : bool :=
  match ev with
  | Message j _ | Failed j _ | DoneEvent j => Nat.eqb j k
  | Typed _ | Send _ => false
  end.

(** [m'] is [m] with text added at the end of its content, and possibly
    another [isLoading]; id, type, timestamp and relevant files are
    those of [m]. *)
Definition grows (m m' : ChatMessage) : Prop :=
  id m' = id m
  /\ type m' = type m
  /\ timestamp m' = timestamp m
  /\ relevantFiles m' = relevantFiles m
  /\ exists more, content m' = content m ++ more.

(** [ms'] holds the messages of [ms], in place and each grown, followed
    by new ones. *)
Definition history_grows (ms ms' : list ChatMessage) : Prop :=
  exists kept added,
    ms' = (kept ++ added)%list /\ Forall2 grows ms kept.

(** Every id among [ms] is the decimal form of a clock reading of at
    most [bound]. *)
Definition stamped (bound : nat) (ms : list ChatMessage) : Prop :=
  forall m, In m ms -> exists n, id m = nat_to_string n /\ n <= bound.

End EventRuns.

(* ================================================================== *)
(** ** Runs of the poller: vocabulary *)
(* ================================================================== *)
Module PollerRuns.
Import JS Service Poller.

(** The status request of the tick fails: rejected, status outside
    200..299, or a body that does not parse. *)
Definition status_fails (net : Answers) : bool :=
  match attempt (status_net net) with
  | inl _ => true
  | inr _ => false
  end.

(** The console entry was written by the service (the [catch] of
    [getIndexingStatus] or of [getFileStructure]), not by the polling
    effect's own [catch] blocks. *)
Definition from_service (entry : log_entry) : bool :=
  String.eqb (label entry) "Error getting indexing status:"
  || String.eqb (label entry) "Error getting file structure:".

End PollerRuns.

(* ================================================================== *)
(** ** Arrays *)
(* ================================================================== *)
Module Arrays.
Import JS.

(** [compareFn] puts [x] before [y] unless it says otherwise: where
    [x] goes into an already sorted array that came after it. *)
Fixpoint insert_by {A : Type} (compareFn : A -> A -> Z) (x : A) (l : list A)
  : list A :=
  match l with
  | [] => [x]
  | y :: rest =>
      if (compareFn x y <=? 0)%Z then x :: y :: rest
      else y :: insert_by compareFn x rest
  end.

(** [array.sort(compareFn)]: the sort is stable, so for a comparison
    that is a consistent ordering it returns this array, in which equal
    elements keep their order. *)
Fixpoint sort_by {A : Type} (compareFn : A -> A -> Z) (l : list A) : list A :=
  match l with
  | [] => []
  | x :: rest => insert_by compareFn x (sort_by compareFn rest)
  end.

(** [array.pop()] as a value: the last element, [undefined] on an empty
    array. *)
Fixpoint pop {A : Type} (l : list A) : option A :=
  match l with
  | [] => None
  | [x] => Some x
  | _ :: rest => pop rest
  end.

(** [array.includes(x)] on strings. *)
Fixpoint includes (l : list string) (x : string) : bool :=
  match l with
  | [] => false
  | y :: rest => String.eqb y x || includes rest x
  end.

End Arrays.

(* ================================================================== *)
(** ** Presentation: chat message, progress card, file explorer *)
(* ================================================================== *)
Module Views.
Import JS Service Arrays.

(** *** [ChatMessage]: the buttons for the relevant files *)

(** [file.split('/').pop()] *)
Definition file_label (file : string) : option string :=
  pop (split file "/").

(** The buttons under a message: none while it is loading or when it
    has no relevant files; otherwise one per file, showing the label and
    passing the whole path to [onFileClick]. *)
Definition file_buttons (message : StreamChat.ChatMessageType)
  : list (option string * string) :=
  match StreamChat.isLoading message with
  | Some true => []
  | _ =>
      match StreamChat.relevantFiles message with
      | Some files => map (fun file => (file_label file, file)) files
      | None => []
      end
  end.

Definition slash : ascii := "/"%char.

(** No slash among the code units of [s]. *)
Fixpoint no_slash (s : string) : bool :=
  match s with
  | EmptyString => true
  | String c s' => negb (Ascii.eqb c slash) && no_slash s'
  end.

(** *** [CodeProgress] *)

Inductive StatusIcon : Type :=
| Spinning          (* indexing *)
| Alert             (* error *)
| Checked           (* progress 100 *)
| Idle.

(** A non-empty string is the only truthy [string | null]. *)
Definition truthy_text (s : option string) : bool :=
  match s with
  | Some text => negb (String.eqb text "")
  | None => false
  end.

Definition icon (status : IndexingStatus) : StatusIcon :=
  if is_indexing status then Spinning
  else if truthy_text (error status) then Alert
  else if (progress status =? 100)%Z then Checked
  else Idle.

(** The error box under the message. *)
Definition error_box (status : IndexingStatus) : option string :=
  if truthy_text (error status) then error status else None.

(** The languages listed in the statistics: not [unknown], by falling
    count, ten at most. *)
Definition shown_languages (by_language : list (string * Z))
  : list (string * Z) :=
  firstn 10
    (sort_by (fun a b => (snd b - snd a)%Z)
       (filter (fun entry => negb (String.eqb (fst entry) "unknown"))
          by_language)).

(** *** [FileExplorer]: the order of a directory's entries *)

Definition is_directory (node : FileTreeNode) : bool :=
  match node with
  | DirectoryNode _ => true
  | FileNode _ _ => false
  end.

Section Explorer.
(** [String.prototype.localeCompare], which depends on the locale. *)
Variable localeCompare : string -> string -> Z.

(** The comparison passed to [sort]. *)
Definition compare_items (a b : string * FileTreeNode) : Z :=
  let aIsDir := is_directory (snd a) in
  let bIsDir := is_directory (snd b) in
  if aIsDir && negb bIsDir then (-1)%Z
  else if negb aIsDir && bIsDir then 1%Z
  else localeCompare (fst a) (fst b).

(** [Object.entries(children).sort(...)] *)
Definition sortedItems (children : list (string * FileTreeNode))
  : list (string * FileTreeNode) :=
  sort_by compare_items children.

End Explorer.

(** A comparison by code units, standing for [localeCompare] in the
    examples. *)
Definition by_code_units (a b : string) : Z :=
  match String.compare a b with
  | Lt => (-1)%Z
  | Eq => 0%Z
  | Gt => 1%Z
  end.

End Views.

(* ================================================================== *)
(** ** [SourceInput]: loading a repository or a directory *)
(* ================================================================== *)
(** The two load buttons of [SourceInput], the service calls behind
    them, and [Index.handleSourceLoaded], which the component reaches
    through [onSourceLoaded].  The answer of the backend is used as it
    was parsed, so it is kept as a JSON value. *)
Module Loading.
Import JS Service.
Local Open Scope js_scope.

(** [{ success: false, message }] *)
Definition load_failure (text : string) : json :=
  JObj [("success", JBool false); ("message", JStr text)].

Definition loadRepository (net : fetch_outcome json) : Js json :=
  try_catch
    (response <- fetch net ;;
     if negb (ok response) then http_error response
     else lift (json_body response))
    (fun error =>
       console_error "Error loading repository:" error ;;;
       ret (load_failure ("Failed to load repository: " ++ message_of error))).

Definition loadDirectory (net : fetch_outcome json) : Js json :=
  try_catch
    (response <- fetch net ;;
     if negb (ok response) then http_error response
     else lift (json_body response))
    (fun error =>
       console_error "Error loading directory:" error ;;;
       ret (load_failure ("Failed to load directory: " ++ message_of error))).

(** A toast; [description] is whatever [result.message] was. *)
Record Toast : Type := {
  title : option string;
  description : option json;
  variant : option string
}.

(** The component's state, the bodies of the requests it has sent, and
    the page it is mounted in. *)
Record SourceInput : Type := {
  repoUrl : string;
  authToken : string;
  directoryPath : string;
  isLoading : bool;
  toasts : list Toast;
  repo_requests : list (string * option string);  (* repo_url, auth_token *)
  directory_requests : list string;               (* directory_path *)
  page : Poller.Index
}.

Definition setIsLoading (b : bool) (st : SourceInput) : SourceInput :=
  {| repoUrl := repoUrl st; authToken := authToken st;
     directoryPath := directoryPath st; isLoading := b;
     toasts := toasts st; repo_requests := repo_requests st;
     directory_requests := directory_requests st; page := page st |}.

Definition toast (t : Toast) (st : SourceInput) : SourceInput :=
  {| repoUrl := repoUrl st; authToken := authToken st;
     directoryPath := directoryPath st; isLoading := isLoading st;
     toasts := (toasts st ++ [t])%list; repo_requests := repo_requests st;
     directory_requests := directory_requests st; page := page st |}.

Definition request_repo (request : string * option string) (st : SourceInput)
  : SourceInput :=
  {| repoUrl := repoUrl st; authToken := authToken st;
     directoryPath := directoryPath st; isLoading := isLoading st;
     toasts := toasts st;
     repo_requests := (repo_requests st ++ [request])%list;
     directory_requests := directory_requests st; page := page st |}.

Definition request_directory (request : string) (st : SourceInput)
  : SourceInput :=
  {| repoUrl := repoUrl st; authToken := authToken st;
     directoryPath := directoryPath st; isLoading := isLoading st;
     toasts := toasts st; repo_requests := repo_requests st;
     directory_requests := (directory_requests st ++ [request])%list;
     page := page st |}.

Definition on_page (f : Poller.Index -> Poller.Index) (st : SourceInput)
  : SourceInput :=
  {| repoUrl := repoUrl st; authToken := authToken st;
     directoryPath := directoryPath st; isLoading := isLoading st;
     toasts := toasts st; repo_requests := repo_requests st;
     directory_requests := directory_requests st; page := f (page st) |}.

Definition write_console (l : list log_entry) : SourceInput -> SourceInput :=
  on_page (Poller.write_console l).

(** [onSourceLoaded()] *)
Definition onSourceLoaded : SourceInput -> SourceInput :=
  on_page Poller.handleSourceLoaded.

Definition destructive : option string := Some "destructive".

(** [if (result.success) { ... } else { ... }], the same in both
    handlers; the second component is what the block throws. *)
Definition on_result (result : json) (st : SourceInput)
  : SourceInput * option thrown :=
  match get result "success" with
  | Throw e => (st, Some e)
  | Return success =>
      if truthy success then
        match get result "message" with
        | Throw e => (st, Some e)
        | Return message =>
            (onSourceLoaded
               (toast {| title := None; description := message;
                         variant := None |} st),
             None)
        end
      else
        match get result "message" with
        | Throw e => (st, Some e)
        | Return message =>
            (toast {| title := Some "Loading Failed"; description := message;
                      variant := destructive |} st,
             None)
        end
  end.

(** [error instanceof Error ? error.message : otherwise] *)
Definition message_or (otherwise : string) (error : thrown) : string :=
  match error with
  | ErrorObj m => m
  | NonError _ => otherwise
  end.

Definition handleLoadRepo (net : fetch_outcome json) (st : SourceInput)
  : SourceInput :=
  if String.eqb (repoUrl st) "" then
    toast {| title := Some "Missing Input";
             description := Some (JStr "Please enter a repository URL");
             variant := destructive |} st
  else
    let st := setIsLoading true st in
    let st :=
      request_repo
        (repoUrl st,
         if String.eqb (authToken st) "" then None else Some (authToken st))
        st in
    let (logs, outcome) := loadRepository net in
    let st := write_console logs st in
    let (st, failure) :=
      match outcome with
      | Return result => on_result result st
      | Throw e => (st, Some e)
      end in
    let st :=
      match failure with
      | None => st
      | Some error =>
          toast {| title := Some "Loading Error";
                   description :=
                     Some (JStr (message_or "Failed to load repository" error));
                   variant := destructive |}
            (write_console [Log "Error loading repository:" error] st)
      end in
    setIsLoading false st.

Definition handleLoadDirectory (net : fetch_outcome json) (st : SourceInput)
  : SourceInput :=
  if String.eqb (directoryPath st) "" then
    toast {| title := Some "Missing Input";
             description := Some (JStr "Please enter a directory path");
             variant := destructive |} st
  else
    let st := setIsLoading true st in
    let st := request_directory (directoryPath st) st in
    let (logs, outcome) := loadDirectory net in
    let st := write_console logs st in
    let (st, failure) :=
      match outcome with
      | Return result => on_result result st
      | Throw e => (st, Some e)
      end in
    let st :=
      match failure with
      | None => st
      | Some error =>
          toast {| title := Some "Loading Error";
                   description :=
                     Some (JStr (message_or "Failed to load directory" error));
                   variant := destructive |}
            (write_console [Log "Error loading directory:" error] st)
      end in
    setIsLoading false st.

(** The backend accepted the load: the request was answered with a
    status in 200..299 and a body whose [success] is truthy. *)
Definition accepted (net : fetch_outcome json) : bool :=
  match attempt net with
  | inr result =>
      match get result "success" with
      | Return success => truthy success
      | Throw _ => false
      end
  | inl _ => false
  end.

(** The page after the component is done with it: polling has been
    started through [handleSourceLoaded] exactly when [go] holds. *)
Definition polling_started_if (go : bool) (before after : Poller.Index)
  : Prop :=
  Poller.startPolling after = go || Poller.startPolling before
  /\ Poller.pollInterval after = go || Poller.pollInterval before
  /\ Poller.selectedTab after
     = (if go then Poller.TabStatus else Poller.selectedTab before).

Definition initial : SourceInput :=
  {| repoUrl := ""; authToken := ""; directoryPath := ""; isLoading := false;
     toasts := []; repo_requests := []; directory_requests := [];
     page := Poller.initial |}.

Definition setRepoUrl (text : string) (st : SourceInput) : SourceInput :=
  {| repoUrl := text; authToken := authToken st;
     directoryPath := directoryPath st; isLoading := isLoading st;
     toasts := toasts st; repo_requests := repo_requests st;
     directory_requests := directory_requests st; page := page st |}.

Definition setDirectoryPath (text : string) (st : SourceInput) : SourceInput :=
  {| repoUrl := repoUrl st; authToken := authToken st;
     directoryPath := text; isLoading := isLoading st;
     toasts := toasts st; repo_requests := repo_requests st;
     directory_requests := directory_requests st; page := page st |}.

End Loading.

(* ================================================================== *)
(** ** pages/Index.tsx: selecting a file *)
(* ================================================================== *)
Module Files.
Import JS Service.
Local Open Scope js_scope.

Record FileContent : Type := {
  fc_success : bool;
  file_path : string;
  fc_content : string;
  language : string;
  fc_error : option string
}.

(** [getFileContent]'s [catch] branch value. *)
Definition content_fallback (filePath : string) (e : thrown) : FileContent :=
  {| fc_success := false; file_path := filePath; fc_content := "";
     language := "unknown"; fc_error := Some (message_of e) |}.

Definition getFileContent (filePath : string)
    (net : fetch_outcome FileContent) : Js FileContent :=
  try_catch
    (response <- fetch net ;;
     if negb (ok response) then http_error response
     else lift (json_body response))
    (fun error =>
       console_error "Error getting file content:" error ;;;
       ret (content_fallback filePath error)).

(** The part of the page's state that file selection reads and writes,
    and the paths it has requested. *)
Record FileView : Type := {
  selectedFile : option string;
  fileContent : option FileContent;
  toasts : list StreamChat.Toast;
  content_requests : list string;
  page : Poller.Index
}.

Definition setSelectedFile (path : string) (st : FileView) : FileView :=
  {| selectedFile := Some path; fileContent := fileContent st;
     toasts := toasts st; content_requests := content_requests st;
     page := page st |}.

Definition setFileContent (c : FileContent) (st : FileView) : FileView :=
  {| selectedFile := selectedFile st; fileContent := Some c;
     toasts := toasts st; content_requests := content_requests st;
     page := page st |}.

Definition toast (t : StreamChat.Toast) (st : FileView) : FileView :=
  {| selectedFile := selectedFile st; fileContent := fileContent st;
     toasts := (toasts st ++ [t])%list;
     content_requests := content_requests st; page := page st |}.

Definition request_content (path : string) (st : FileView) : FileView :=
  {| selectedFile := selectedFile st; fileContent := fileContent st;
     toasts := toasts st;
     content_requests := (content_requests st ++ [path])%list;
     page := page st |}.

Definition on_page (f : Poller.Index -> Poller.Index) (st : FileView)
  : FileView :=
  {| selectedFile := selectedFile st; fileContent := fileContent st;
     toasts := toasts st; content_requests := content_requests st;
     page := f (page st) |}.

(** [handleFileSelect] up to its [await]. *)
Definition select_begin (filePath : string) (st : FileView) : FileView :=
  request_content filePath (setSelectedFile filePath st).

(** [handleFileSelect] from the answer of its request to its end;
    [isMobile] is the value the call captured. *)
Definition select_answer (isMobile : bool) (filePath : string)
    (net : fetch_outcome FileContent) (st : FileView) : FileView :=
  let (logs, outcome) := getFileContent filePath net in
  let st := on_page (Poller.write_console logs) st in
  match outcome with
  | Return content =>
      let st := setFileContent content st in
      if isMobile then on_page (Poller.setSelectedTab Poller.TabFiles) st
      else st
  | Throw error =>
      toast {| StreamChat.title := "Error";
               StreamChat.description :=
                 "Failed to load file: "
                 ++ match error with
                    | ErrorObj m => m
                    | NonError _ => "Unknown error"
                    end;
               StreamChat.variant := "destructive" |}
        (on_page
           (Poller.write_console [Log "Error getting file content:" error])
           st)
  end.

(** A call whose request is answered before anything else happens. *)
Definition handleFileSelect (isMobile : bool) (filePath : string)
    (net : fetch_outcome FileContent) (st : FileView) : FileView :=
  select_answer isMobile filePath net (select_begin filePath st).

(** Clicks and answers in the order they happen: an answer may arrive
    after later clicks. *)
Inductive FileEvent : Type :=
| Clicked (filePath : string)
| ContentAnswered (isMobile : bool) (filePath : string)
    (net : fetch_outcome FileContent).

Definition file_event (st : FileView) (ev : FileEvent) : FileView :=
  match ev with
  | Clicked filePath => select_begin filePath st
  | ContentAnswered isMobile filePath net =>
      select_answer isMobile filePath net st
  end.

Definition run_files (evs : list FileEvent) (st : FileView) : FileView :=
  fold_left file_event evs st.

(** What a content request comes back as. *)
Definition content_response (filePath : string)
    (net : fetch_outcome FileContent) : FileContent :=
  match attempt net with
  | inl e => content_fallback filePath e
  | inr c => c
  end.

(** The paths clicked and the contents answered in a run, oldest first,
    and whether some answer belonged to a call made on a mobile layout. *)
Fixpoint clicked (evs : list FileEvent) : list string :=
  match evs with
  | [] => []
  | Clicked filePath :: rest => filePath :: clicked rest
  | ContentAnswered _ _ _ :: rest => clicked rest
  end.

Fixpoint contents (evs : list FileEvent) : list FileContent :=
  match evs with
  | [] => []
  | Clicked _ :: rest => contents rest
  | ContentAnswered _ filePath net :: rest =>
      content_response filePath net :: contents rest
  end.

Fixpoint answered_on_mobile (evs : list FileEvent) : bool :=
  match evs with
  | [] => false
  | Clicked _ :: rest => answered_on_mobile rest
  | ContentAnswered isMobile _ _ :: rest =>
      isMobile || answered_on_mobile rest
  end.

End Files.

(* ================================================================== *)
(** ** [OllamaSelector]: connecting to the server, choosing a model *)
(* ================================================================== *)
(** The answers of the backend are read through their declared types.
    Of the console, the [console.error(label, error)] calls are
    recorded, as everywhere in this development; the [console.log]
    lines and the one-argument [console.error] of
    [testOllamaConnection] are not. *)
Module Ollama.
Import JS Service Arrays.
Local Open Scope js_scope.

Record OllamaStatus : Type := {
  connected : bool;
  status_message : string;
  suggested_model : option string;
  available_models : option (list string);
  status_error : option string
}.

Record ModelResult : Type := {
  model_success : bool;
  model_message : string
}.

(** [testOllamaConnection]'s [catch] branch value. *)
Definition connection_fallback (e : thrown) : OllamaStatus :=
  {| connected := false;
     status_message :=
       "Failed to connect to the backend: " ++ message_of e
       ++ ". Make sure your backend server is running at "
       ++ "http://localhost:5000/api and accessible from your browser.";
     suggested_model := None; available_models := None;
     status_error := None |}.

(** [errorText] is what [response.text()] settles to. *)
Definition testOllamaConnection (net : fetch_outcome OllamaStatus)
    (errorText : completion string) : Js OllamaStatus :=
  try_catch
    (response <- fetch net ;;
     if negb (ok response) then
       text <- lift errorText ;;
       throw (ErrorObj ("HTTP error " ++ nat_to_string (status response)
                        ++ ": " ++ text))
     else lift (json_body response))
    (fun error =>
       console_error "Error testing Ollama connection:" error ;;;
       ret (connection_fallback error)).

Definition model_fallback (e : thrown) : ModelResult :=
  {| model_success := false;
     model_message := "Failed to set model: " ++ message_of e |}.

Definition setModel (net : fetch_outcome ModelResult) : Js ModelResult :=
  try_catch
    (response <- fetch net ;;
     if negb (ok response) then http_error response
     else lift (json_body response))
    (fun error =>
       console_error "Error setting model:" error ;;;
       ret (model_fallback error)).

(** The page's side: what [handleOllamaConnect] writes. *)
Record Page : Type := {
  index : Poller.Index;
  isOllamaConnected : bool;
  availableModels : list string
}.

Definition setConnectionStep (step : Poller.ConnectionStep)
    (st : Poller.Index) : Poller.Index :=
  {| Poller.connectionStep := step;
     Poller.selectedTab := Poller.selectedTab st;
     Poller.indexingStatus := Poller.indexingStatus st;
     Poller.fileStructure := Poller.fileStructure st;
     Poller.startPolling := Poller.startPolling st;
     Poller.pollInterval := Poller.pollInterval st;
     Poller.console := Poller.console st;
     Poller.status_requests := Poller.status_requests st;
     Poller.tree_requests := Poller.tree_requests st;
     Poller.published := Poller.published st |}.

Definition handleOllamaConnect (connected : bool) (models : list string)
    (p : Page) : Page :=
  let p := {| index := index p; isOllamaConnected := connected;
              availableModels := availableModels p |} in
  let p := {| index := index p; isOllamaConnected := isOllamaConnected p;
              availableModels := models |} in
  if connected && (0 <? length models)%nat then
    {| index := setConnectionStep Poller.Connected (index p);
       isOllamaConnected := isOllamaConnected p;
       availableModels := availableModels p |}
  else p.

Record Toast : Type := {
  title : option string;
  description : string;
  variant : option string
}.

(** The component's state, the requests it has sent, and the page it is
    mounted in. *)
Record OllamaSelector : Type := {
  open : bool;
  models : list string;
  selectedModel : string;
  serverUrl : string;
  isConnecting : bool;
  isConnected : bool;
  connectionError : option string;
  toasts : list Toast;
  connection_requests : list (string * string);   (* base_url, model *)
  model_requests : list string;                   (* model *)
  page : Page
}.

Definition initial : OllamaSelector :=
  {| open := false; models := []; selectedModel := "deepseek-coder";
     serverUrl := "http://localhost:11434"; isConnecting := false;
     isConnected := false; connectionError := None; toasts := [];
     connection_requests := []; model_requests := [];
     page := {| index := Poller.initial; isOllamaConnected := false;
                availableModels := [] |} |}.

Definition setOpen (b : bool) (st : OllamaSelector) : OllamaSelector :=
  {| open := b; models := models st; selectedModel := selectedModel st;
     serverUrl := serverUrl st; isConnecting := isConnecting st;
     isConnected := isConnected st; connectionError := connectionError st;
     toasts := toasts st; connection_requests := connection_requests st;
     model_requests := model_requests st; page := page st |}.

Definition setModels (l : list string) (st : OllamaSelector) : OllamaSelector :=
  {| open := open st; models := l; selectedModel := selectedModel st;
     serverUrl := serverUrl st; isConnecting := isConnecting st;
     isConnected := isConnected st; connectionError := connectionError st;
     toasts := toasts st; connection_requests := connection_requests st;
     model_requests := model_requests st; page := page st |}.

Definition setSelectedModel (m : string) (st : OllamaSelector)
  : OllamaSelector :=
  {| open := open st; models := models st; selectedModel := m;
     serverUrl := serverUrl st; isConnecting := isConnecting st;
     isConnected := isConnected st; connectionError := connectionError st;
     toasts := toasts st; connection_requests := connection_requests st;
     model_requests := model_requests st; page := page st |}.

Definition setIsConnecting (b : bool) (st : OllamaSelector) : OllamaSelector :=
  {| open := open st; models := models st; selectedModel := selectedModel st;
     serverUrl := serverUrl st; isConnecting := b;
     isConnected := isConnected st; connectionError := connectionError st;
     toasts := toasts st; connection_requests := connection_requests st;
     model_requests := model_requests st; page := page st |}.

Definition setIsConnected (b : bool) (st : OllamaSelector) : OllamaSelector :=
  {| open := open st; models := models st; selectedModel := selectedModel st;
     serverUrl := serverUrl st; isConnecting := isConnecting st;
     isConnected := b; connectionError := connectionError st;
     toasts := toasts st; connection_requests := connection_requests st;
     model_requests := model_requests st; page := page st |}.

Definition setConnectionError (e : option string) (st : OllamaSelector)
  : OllamaSelector :=
  {| open := open st; models := models st; selectedModel := selectedModel st;
     serverUrl := serverUrl st; isConnecting := isConnecting st;
     isConnected := isConnected st; connectionError := e;
     toasts := toasts st; connection_requests := connection_requests st;
     model_requests := model_requests st; page := page st |}.

Definition toast (t : Toast) (st : OllamaSelector) : OllamaSelector :=
  {| open := open st; models := models st; selectedModel := selectedModel st;
     serverUrl := serverUrl st; isConnecting := isConnecting st;
     isConnected := isConnected st; connectionError := connectionError st;
     toasts := (toasts st ++ [t])%list;
     connection_requests := connection_requests st;
     model_requests := model_requests st; page := page st |}.

Definition request_connection (request : string * string)
    (st : OllamaSelector) : OllamaSelector :=
  {| open := open st; models := models st; selectedModel := selectedModel st;
     serverUrl := serverUrl st; isConnecting := isConnecting st;
     isConnected := isConnected st; connectionError := connectionError st;
     toasts := toasts st;
     connection_requests := (connection_requests st ++ [request])%list;
     model_requests := model_requests st; page := page st |}.

Definition request_model (m : string) (st : OllamaSelector) : OllamaSelector :=
  {| open := open st; models := models st; selectedModel := selectedModel st;
     serverUrl := serverUrl st; isConnecting := isConnecting st;
     isConnected := isConnected st; connectionError := connectionError st;
     toasts := toasts st; connection_requests := connection_requests st;
     model_requests := (model_requests st ++ [m])%list; page := page st |}.

Definition on_page (f : Page -> Page) (st : OllamaSelector) : OllamaSelector :=
  {| open := open st; models := models st; selectedModel := selectedModel st;
     serverUrl := serverUrl st; isConnecting := isConnecting st;
     isConnected := isConnected st; connectionError := connectionError st;
     toasts := toasts st; connection_requests := connection_requests st;
     model_requests := model_requests st; page := f (page st) |}.

Definition write_console (l : list log_entry) : OllamaSelector -> OllamaSelector :=
  on_page (fun p =>
    {| index := Poller.write_console l (index p);
       isOllamaConnected := isOllamaConnected p;
       availableModels := availableModels p |}).

(** [onConnect(connected, models)] *)
Definition onConnect (connected : bool) (models : list string)
  : OllamaSelector -> OllamaSelector :=
  on_page (handleOllamaConnect connected models).

Definition destructive : option string := Some "destructive".

(** How the network answers one [handleConnect]: the connection test,
    the text of its response, and the model request should the handler
    send one. *)
Record Answers : Type := {
  connect_net : fetch_outcome OllamaStatus;
  errorText : completion string;
  model_net : fetch_outcome ModelResult
}.

(** [if (result.available_models) { ... }] inside the connected branch;
    [requested] is the [selectedModel] the handler was called with.  The
    second component is what the block throws. *)
Definition adopt_models (net : Answers) (result : OllamaStatus)
    (requested : string) (st : OllamaSelector)
  : OllamaSelector * option thrown :=
  match available_models result with
  | Some available =>
      let st := setModels available st in
      match suggested_model result with
      | Some suggested =>
          if negb (String.eqb suggested "")
             && negb (includes available requested)
          then
            let st := setSelectedModel suggested st in
            let st := request_model suggested st in
            let (logs, changed) := setModel (model_net net) in
            let st := write_console logs st in
            match changed with
            | Return _ =>
                (toast {| title := None;
                          description :=
                            "Model changed to " ++ suggested
                            ++ " because the requested model wasn't available.";
                          variant := None |} st,
                 None)
            | Throw e => (st, Some e)
            end
          else (st, None)
      | None => (st, None)
      end
  | None => (st, None)
  end.

(** [error instanceof Error ? error.message : otherwise] *)
Definition message_or (otherwise : string) (error : thrown) : string :=
  match error with
  | ErrorObj m => m
  | NonError _ => otherwise
  end.

Definition handleConnect (net : Answers) (st : OllamaSelector)
  : OllamaSelector :=
  let requested := selectedModel st in
  let st := setIsConnecting true st in
  let st := setConnectionError None st in
  let st := request_connection (serverUrl st, requested) st in
  let (logs, outcome) :=
    testOllamaConnection (connect_net net) (errorText net) in
  let st := write_console logs st in
  let (st, failure) :=
    match outcome with
    | Throw e => (st, Some e)
    | Return result =>
        if connected result then
          let st := setIsConnected true st in
          match adopt_models net result requested st with
          | (st, Some e) => (st, Some e)
          | (st, None) =>
              let st :=
                toast {| title := None; description := status_message result;
                         variant := None |} st in
              (onConnect true
                 match available_models result with
                 | Some available => available
                 | None => []
                 end st,
               None)
          end
        else
          let st := setIsConnected false st in
          let st := setConnectionError (Some (status_message result)) st in
          let st :=
            toast {| title := Some "Connection Failed";
                     description := status_message result;
                     variant := destructive |} st in
          (onConnect false [] st, None)
    end in
  let st :=
    match failure with
    | None => st
    | Some error =>
        let st :=
          write_console [Log "Error connecting to Ollama:" error] st in
        let errorMessage :=
          message_or "Failed to connect to Ollama server" error in
        let st := setConnectionError (Some errorMessage) st in
        let st :=
          toast {| title := Some "Connection Error";
                   description := errorMessage;
                   variant := destructive |} st in
        onConnect false [] st
    end in
  setIsConnecting false st.

Definition handleModelChange (model : string)
    (net : fetch_outcome ModelResult) (st : OllamaSelector)
  : OllamaSelector :=
  let wasConnected := isConnected st in
  let st := setSelectedModel model st in
  let st := setOpen false st in
  if wasConnected then
    let st := request_model model st in
    let (logs, outcome) := setModel net in
    let st := write_console logs st in
    match outcome with
    | Return result =>
        if model_success result then
          toast {| title := None;
                   description := "Model changed to " ++ model;
                   variant := None |} st
        else
          toast {| title := Some "Model Change Failed";
                   description := model_message result;
                   variant := destructive |} st
    | Throw error =>
        toast {| title := Some "Model Change Error";
                 description := message_or "Failed to change model" error;
                 variant := destructive |}
          (write_console [Log "Error changing model:" error] st)
    end
  else st.

(** What the connection test comes back as. *)
Definition connection_result (net : Answers) : OllamaStatus :=
  match connect_net net with
  | Rejected e => connection_fallback e
  | Resolved r =>
      if ok r then
        match json_body r with
        | Return result => result
        | Throw e => connection_fallback e
        end
      else
        match errorText net with
        | Return text =>
            connection_fallback
              (ErrorObj ("HTTP error " ++ nat_to_string (status r)
                         ++ ": " ++ text))
        | Throw e => connection_fallback e
        end
  end.

(** The handler replaces the requested model: the server is connected,
    lists its models, suggests one, and the requested one is not among
    those listed. *)
Definition replaces_model (result : OllamaStatus) (requested : string) : bool :=
  connected result
  && match available_models result, suggested_model result with
     | Some available, Some suggested =>
         negb (String.eqb suggested "") && negb (includes available requested)
     | _, _ => false
     end.

End Ollama.

(* ================================================================== *)
(** * Properties *)
(* ================================================================== *)

(** ** The service never lets a failure escape *)
Module ServiceFacts.
Import JS Service.

Lemma getIndexingStatus_result (net : fetch_outcome IndexingStatus) :
  snd (getIndexingStatus net)
  = Return (match attempt net with
            | inl e => status_fallback e
            | inr s => s
            end).
Proof.
  unfold getIndexingStatus, attempt.
  destruct net as [e | r]; [reflexivity |].
  cbn. destruct (ok r); cbn; [| reflexivity].
  now destruct (json_body r).
Qed.

Lemma getFileStructure_result (net : fetch_outcome FileStructure) :
  snd (getFileStructure net)
  = Return (match attempt net with
            | inl e => structure_fallback e
            | inr s => s
            end).
Proof.
  unfold getFileStructure, attempt.
  destruct net as [e | r]; [reflexivity |].
  cbn. destruct (ok r); cbn; [| reflexivity].
  now destruct (json_body r).
Qed.

Lemma queryCode_buffered_result (query : string)
    (net : fetch_outcome (option LLMResponse)) :
  snd (queryCode query false net)
  = Return (Buffered (match attempt net with
                      | inl e => Some (query_fallback e)
                      | inr v => v
                      end)).
Proof.
  unfold queryCode, attempt.
  destruct net as [e | r]; [reflexivity |].
  cbn. destruct (ok r); cbn; [| reflexivity].
  now destruct (json_body r).
Qed.

Lemma queryCode_streamed_result (query : string)
    (net : fetch_outcome (option LLMResponse)) :
  snd (queryCode query true net)
  = Return (match net with
            | Rejected e => Buffered (Some (query_fallback e))
            | Resolved r =>
                if ok r then Streamed (body r)
                else Buffered
                       (Some (query_fallback
                                (ErrorObj ("HTTP error "
                                           ++ nat_to_string (status r)))))
            end).
Proof.
  unfold queryCode.
  destruct net as [e | r]; [reflexivity |].
  cbn. now destruct (ok r).
Qed.

(** C10. The service calls behind the poller and the buffered query
    always return: whatever the network does, [getIndexingStatus],
    [getFileStructure] and the non-streaming [queryCode] complete with a
    value.  When the request fails (rejected fetch, HTTP status outside
    200..299, unreadable body) that value is the fallback built from the
    error: for the status, [is_indexing = false], [progress = 0] and
    [error] set to the failure message; for the query, an object with
    [success = false]. *)
Theorem service_calls_return_fallbacks :
  (forall net : fetch_outcome IndexingStatus,
      snd (getIndexingStatus net)
      = Return (match attempt net with
                | inl e => status_fallback e
                | inr s => s
                end))
  /\ (forall e : thrown,
         is_indexing (status_fallback e) = false
         /\ progress (status_fallback e) = 0%Z
         /\ error (status_fallback e) = Some (message_of e))
  /\ (forall (query : string) (net : fetch_outcome (option LLMResponse)),
         snd (queryCode query false net)
         = Return (Buffered (match attempt net with
                             | inl e => Some (query_fallback e)
                             | inr v => v
                             end)))
  /\ (forall e : thrown,
         success (query_fallback e) = false
         /\ llm_error (query_fallback e) = Some (message_of e))
  /\ (forall net : fetch_outcome FileStructure,
         exists structure, snd (getFileStructure net) = Return structure).
Proof.
  split; [exact getIndexingStatus_result |].
  split; [intros e; repeat split |].
  split; [exact queryCode_buffered_result |].
  split; [intros e; split; reflexivity |].
  intros net. rewrite getFileStructure_result. eexists; reflexivity.
Qed.

End ServiceFacts.

(** ** The status poller *)
Module PollerFacts.
Import JS Service Poller.

Lemma status_call (net : Answers) :
  exists logs,
    getIndexingStatus (status_net net) = (logs, Return (poll_response net)).
Proof.
  unfold poll_response.
  pose proof (ServiceFacts.getIndexingStatus_result (status_net net)) as R.
  destruct (getIndexingStatus (status_net net)) as [logs c].
  cbn in *. exists logs. now rewrite R.
Qed.

(** One tick whose status does not report completion: the status is
    published and nothing else moves. *)
Lemma callback_pending (net : Answers) (st : Index) :
  indexing_complete (poll_response net) = false ->
  pollInterval (poll_callback net st) = pollInterval st
  /\ status_requests (poll_callback net st) = S (status_requests st)
  /\ tree_requests (poll_callback net st) = tree_requests st
  /\ selectedTab (poll_callback net st) = selectedTab st
  /\ published (poll_callback net st)
     = (published st ++ [poll_response net])%list.
Proof.
  intros pending. unfold poll_callback, on_status_answer.
  destruct (status_call net) as [logs ->].
  rewrite pending. cbn. repeat split.
Qed.

(** One tick whose status reports completion. *)
Lemma callback_complete (net : Answers) (st : Index) :
  indexing_complete (poll_response net) = true ->
  pollInterval (poll_callback net st) = false
  /\ status_requests (poll_callback net st) = S (status_requests st)
  /\ tree_requests (poll_callback net st) = S (tree_requests st)
  /\ selectedTab (poll_callback net st) = TabChat
  /\ published (poll_callback net st)
     = (published st ++ [poll_response net])%list.
Proof.
  intros complete. unfold poll_callback, on_status_answer.
  destruct (status_call net) as [logs ->].
  rewrite complete.
  destruct (getFileStructure (tree_net net)) as [logs' [structure | e]];
    cbn; repeat split.
Qed.

Lemma run_stopped (ticks : list Answers) (st : Index) :
  pollInterval st = false -> run_poller ticks st = st.
Proof. intros off. destruct ticks; cbn; [| rewrite off]; reflexivity. Qed.

(** Ticks that all come back pending leave the interval running. *)
Lemma run_pending (ticks : list Answers) :
  forall st,
    pollInterval st = true ->
    forallb (fun n => negb (indexing_complete (poll_response n))) ticks = true ->
    pollInterval (run_poller ticks st) = true
    /\ status_requests (run_poller ticks st)
       = status_requests st + length ticks
    /\ tree_requests (run_poller ticks st) = tree_requests st
    /\ selectedTab (run_poller ticks st) = selectedTab st
    /\ published (run_poller ticks st)
       = (published st ++ map poll_response ticks)%list.
Proof.
  induction ticks as [| net later IH]; intros st live pending; cbn.
  - rewrite app_nil_r, Nat.add_0_r. repeat split; assumption.
  - cbn in pending. apply andb_true_iff in pending as [now_pending rest].
    apply negb_true_iff in now_pending.
    destruct (callback_pending net st now_pending)
      as (Hlive & Hreq & Htree & Htab & Hpub).
    rewrite live.
    destruct (IH (poll_callback net st)) as (L & R & T & S' & P).
    + now rewrite Hlive.
    + exact rest.
    + rewrite L, R, T, S', P, Hreq, Htree, Htab, Hpub.
      rewrite <- app_assoc. cbn. repeat split; lia.
Qed.

Lemma run_app (before after : list Answers) :
  forall st,
    run_poller (before ++ after) st
    = if pollInterval (run_poller before st)
      then run_poller after (run_poller before st)
      else run_poller before st.
Proof.
  induction before as [| net later IH]; intros st; cbn.
  - destruct (pollInterval st) eqn:live; [reflexivity |].
    now rewrite run_stopped.
  - destruct (pollInterval st) eqn:live; [apply IH |].
    now rewrite live.
Qed.

(** The first completed answer among the ticks, if any, splits them. *)
Lemma first_complete (ticks : list Answers) :
  forallb (fun n => negb (indexing_complete (poll_response n))) ticks = true
  \/ exists before net after,
      ticks = (before ++ net :: after)%list
      /\ forallb (fun n => negb (indexing_complete (poll_response n))) before
         = true
      /\ indexing_complete (poll_response net) = true.
Proof.
  induction ticks as [| net later [all | (before & n & after & E & P & C)]].
  - now left.
  - destruct (indexing_complete (poll_response net)) eqn:c.
    + right. exists [], net, later. now repeat split.
    + left. cbn. now rewrite c.
  - destruct (indexing_complete (poll_response net)) eqn:c.
    + right. exists [], net, later. now repeat split.
    + right. exists (net :: before), n, after. subst later.
      repeat split; [| exact C]. cbn. now rewrite c.
Qed.

(** Running up to and including the first completed answer. *)
Lemma run_to_completion (before : list Answers) (net : Answers)
    (after : list Answers) (st : Index) :
  pollInterval st = true ->
  forallb (fun n => negb (indexing_complete (poll_response n))) before = true ->
  indexing_complete (poll_response net) = true ->
  let st' := run_poller (before ++ net :: after) st in
  pollInterval st' = false
  /\ status_requests st' = status_requests st + length before + 1
  /\ tree_requests st' = tree_requests st + 1
  /\ selectedTab st' = TabChat
  /\ published st'
     = (published st ++ map poll_response (before ++ [net]))%list.
Proof.
  intros live pending complete st'. subst st'.
  destruct (run_pending before st live pending) as (L & R & T & _ & P).
  rewrite run_app, L. cbn. rewrite L.
  destruct (callback_complete net (run_poller before st) complete)
    as (Hlive & Hreq & Htree & Htab & Hpub).
  rewrite run_stopped by exact Hlive.
  rewrite Hlive, Hreq, Htree, Htab, Hpub, R, T, P, map_app, app_assoc.
  cbn. repeat split; lia.
Qed.

(** What an answer does, whenever it arrives. *)
Lemma answer_effect (net : Answers) (st : Index) :
  let st' := on_status_answer net st in
  status_requests st' = status_requests st
  /\ published st' = (published st ++ [poll_response net])%list
  /\ tree_requests st'
     = (if indexing_complete (poll_response net)
        then S (tree_requests st) else tree_requests st)
  /\ pollInterval st'
     = (if indexing_complete (poll_response net)
        then false else pollInterval st).
Proof.
  unfold on_status_answer. destruct (status_call net) as [logs ->].
  destruct (indexing_complete (poll_response net)); [| cbn; repeat split].
  destruct (getFileStructure (tree_net net)) as [logs' [structure | e]];
    cbn; repeat split.
Qed.

(** With slow answers too, every answer is published. *)
Lemma events_published (evs : list PollEvent) :
  forall st,
    published (run_events evs st) = (published st ++ answered evs)%list.
Proof.
  unfold run_events.
  induction evs as [| [| net] rest IH]; intros st; cbn [fold_left answered].
  - now rewrite app_nil_r.
  - rewrite IH. cbn. now destruct (pollInterval st).
  - rewrite IH. destruct (answer_effect net st) as (_ & Pub & _).
    cbn [poll_event]. now rewrite Pub, <- app_assoc.
Qed.

(** Each answer that reports completion issues one file-structure
    request. *)
Lemma events_tree_requests (evs : list PollEvent) :
  forall st,
    tree_requests (run_events evs st) = tree_requests st + completions evs.
Proof.
  unfold run_events, completions.
  induction evs as [| [| net] rest IH]; intros st; cbn [fold_left answered].
  - cbn. lia.
  - rewrite IH. cbn. now destruct (pollInterval st).
  - rewrite IH. destruct (answer_effect net st) as (_ & _ & Tree & _).
    cbn [poll_event filter]. rewrite Tree.
    destruct (indexing_complete (poll_response net)); cbn [length]; lia.
Qed.

(** Once the interval is cleared no tick issues a status request,
    whatever still arrives. *)
Lemma events_after_stop (evs : list PollEvent) :
  forall st,
    pollInterval st = false ->
    pollInterval (run_events evs st) = false
    /\ status_requests (run_events evs st) = status_requests st.
Proof.
  unfold run_events.
  induction evs as [| [| net] rest IH]; intros st off; cbn [fold_left].
  - now split.
  - cbn [poll_event]. rewrite off. now apply IH.
  - destruct (answer_effect net st) as (R & _ & _ & Live).
    cbn [poll_event].
    destruct (IH (on_status_answer net st)) as [L Q].
    + rewrite Live, off. now destruct (indexing_complete (poll_response net)).
    + split; [exact L | congruence].
Qed.

(** The tick by tick run is the event run in which every answer comes
    back before the next tick, up to the answer that stops the poller. *)
Lemma run_poller_as_events (ticks : list Answers) :
  forall st,
    pollInterval st = true ->
    exists n,
      run_poller ticks st
      = run_events
          (flat_map (fun net => [Tick; Answered net]) (firstn n ticks)) st.
Proof.
  induction ticks as [| net later IH]; intros st live.
  - now exists 0.
  - cbn [run_poller]. rewrite live.
    destruct (pollInterval (poll_callback net st)) eqn:still.
    + destruct (IH _ still) as (n & E). exists (S n).
      rewrite E. unfold run_events. cbn. now rewrite live.
    + exists 1. rewrite run_stopped by exact still.
      unfold run_events. cbn. now rewrite live.
Qed.



(** C8 does not hold as stated: after an answer with a non-null [error]
    (sent by the backend, or made up by the service when the request
    fails) the interval stays set and the next tick polls again. *)
Lemma error_status_keeps_polling :
  error (poll_response tick_error) = Some "disk full"
  /\ error (poll_response tick_unreachable) = Some "Failed to fetch"
  /\ pollInterval (run_poller [tick_error] (handleSourceLoaded initial))
     = true
  /\ status_requests
       (run_poller [tick_error; tick_40] (handleSourceLoaded initial)) = 2
  /\ status_requests
       (run_poller [tick_unreachable; tick_40] (handleSourceLoaded initial))
     = 2.
Proof. repeat split. Qed.

(** C8, as the code has it.  The completion test never reads [error]:
    an answer whose [error] is non-null stops the poller only if it
    also reports [progress = 100] with [is_indexing = false]; after any
    other such answer the interval is still set and the next tick
    issues another status request. *)
Theorem error_status_is_not_terminal
    (net next : Answers) (st : Index) :
  pollInterval st = true ->
  error (poll_response net) <> None ->
  pollInterval (poll_callback net st)
  = negb (indexing_complete (poll_response net))
  /\ status_requests (run_poller [net; next] st)
     = if indexing_complete (poll_response net)
       then status_requests st + 1
       else status_requests st + 2.
Proof.
  intros live _. cbn. rewrite live.
  destruct (indexing_complete (poll_response net)) eqn:c.
  - destruct (callback_complete net st c) as (L & R & _).
    rewrite L, R. split; [reflexivity | lia].
  - destruct (callback_pending net st c) as (L & R & _).
    rewrite L, live. split; [reflexivity |].
    destruct (indexing_complete (poll_response next)) eqn:c'.
    + destruct (callback_complete next (poll_callback net st) c')
        as (_ & R' & _). rewrite R', R. lia.
    + destruct (callback_pending next (poll_callback net st) c')
        as (_ & R' & _). rewrite R', R. lia.
Qed.

(** C8 as amended, on the backend's [disk full] status. *)
Lemma error_status_is_not_terminal_at_disk_full :
  pollInterval (poll_callback tick_error (handleSourceLoaded initial)) = true
  /\ status_requests
       (run_poller [tick_error; tick_40] (handleSourceLoaded initial)) = 2.
Proof.
  exact (error_status_is_not_terminal tick_error tick_40
           (handleSourceLoaded initial) eq_refl
           (fun H => match H in _ = o
                           return match o with Some _ => True | None => False end
                     with eq_refl => I end)).
Defined.

End PollerFacts.

(** ** Strings *)
Module TextFacts.
Import JS.

Lemma append_nil_r (s : string) : s ++ "" = s.
Proof. induction s as [| c s IH]; cbn; [| rewrite IH]; reflexivity. Qed.

Lemma append_assoc (a b c : string) : (a ++ b) ++ c = a ++ b ++ c.
Proof. induction a as [| x a IH]; cbn; [| rewrite IH]; reflexivity. Qed.

End TextFacts.

(** ** The event source chat component *)
Module EventFacts.
Import JS EventChat Scenarios.

(** The guard of [handleSendMessage]: nothing happens while the
    component is loading, nor on a blank input. *)
Lemma send_rejected_while_loading (clk : Clock) (st : CodeChat) :
  loading st = true -> handleSendMessage clk st = st.
Proof.
  intros busy. unfold handleSendMessage.
  now rewrite busy, orb_true_r.
Qed.

Lemma send_rejected_on_blank_input (clk : Clock) (st : CodeChat) :
  trim_is_empty (input st) = true -> handleSendMessage clk st = st.
Proof. intros blank. unfold handleSendMessage. now rewrite blank. Qed.

(** An accepted call appends the user message and the placeholder, in
    that order, and opens one more source. *)
Lemma send_accepted (clk : Clock) (st : CodeChat) :
  trim_is_empty (input st) = false ->
  loading st = false ->
  let st' := handleSendMessage clk st in
  length (messages st') = length (messages st) + 2
  /\ loading st' = true
  /\ input st' = ""
  /\ length (sources st') = length (sources st) + 1.
Proof.
  intros filled idle. unfold handleSendMessage. rewrite filled, idle. cbn.
  rewrite <- app_assoc, !length_app. cbn. repeat split; lia.
Qed.

(** The chunk updater looks at the position, not at an id: it rewrites
    the last message of the list when that is an assistant message. *)
Lemma append_to_last_assistant (text : string)
    (earlier : list ChatMessage) (lastMessage : ChatMessage) :
  type lastMessage = ASSISTANT ->
  append_to_last text (earlier ++ [lastMessage])
  = (earlier ++
     [{| id := id lastMessage; type := ASSISTANT;
         content := content lastMessage ++ text;
         timestamp := timestamp lastMessage;
         isLoading := Some false;
         relevantFiles := relevantFiles lastMessage |}])%list.
Proof.
  intros is_assistant. unfold append_to_last.
  rewrite rev_app_distr. cbn. rewrite is_assistant, rev_involutive.
  reflexivity.
Qed.

(** A message that fails to parse is logged and reported; the messages,
    the loading flag and the sources are as before, so the stream goes
    on. *)
Lemma malformed_message_is_reported
    (JSON_parse : string -> completion json)
    (k : nat) (event_data : string) (st : CodeChat) (e : thrown) :
  JSON_parse event_data = Throw e ->
  let st' := onmessage JSON_parse k event_data st in
  messages st' = messages st
  /\ loading st' = loading st
  /\ sources st' = sources st
  /\ input st' = input st
  /\ relevantFiles_state st' = relevantFiles_state st
  /\ (is_open k st = true ->
      console st' = (console st ++ [Log "Error parsing message:" e])%list).
Proof.
  intros bad. unfold onmessage, message_body. rewrite bad.
  destruct (is_open k st); cbn; repeat split; auto. discriminate.
Qed.

(** C1 fails here.  The first query's source stays open after its
    [{error}] record (only the loading flag is cleared), the user sends a
    second query, and a chunk that arrives late on the first source is
    written into the second query's assistant message, the last of the
    list; the first query's own assistant message is left untouched. *)
Theorem late_chunk_lands_in_the_last_message :
  let st' :=
    run JsonText.parse
      [Typed "first"; Send (clock 100);
       Message 0 (error_payload "boom");
       Typed "second"; Send (clock 200);
       Message 0 (chunk_payload "late")]
      initial in
  map id (messages st') = ["100"; "101"; "200"; "201"]
  /\ map content (messages st') = ["first"; ""; "second"; "late"]
  /\ map isLoading (messages st')
     = [Some false; Some true; Some false; Some false]
  /\ sources st' = [true; true].
Proof. vm_compute. repeat split. Qed.

(** *** Malformed messages

    Up to the console and the toasts, a run of events is the run of the
    same events without the messages that fail to parse. *)
Section Views.
Variable JSON_parse : string -> completion json.

Lemma same_view_refl a : same_view a a.
Proof. repeat split. Qed.

Lemma step_same_view (a b : CodeChat) (ev : Event) :
  same_view a b ->
  same_view (step JSON_parse a ev) (step JSON_parse b ev).
Proof.
  destruct a, b. unfold same_view. cbn.
  intros (-> & -> & -> & -> & ->).
  destruct ev as [text | clk | k event_data | k error | k]; cbn;
    unfold onChange, handleSendMessage, onmessage, message_body, onerror,
      on_done_event, is_open; cbn.
  - destruct loading1; cbn; repeat split.
  - destruct (all_white_space input1 || loading1); cbn; repeat split.
  - destruct (nth k sources1 false); cbn; [| repeat split].
    destruct (JSON_parse event_data) as [data | e]; cbn; [| repeat split].
    destruct (get data "relevant_files") as [files | e]; cbn;
      [| repeat split].
    destruct (truthy files); cbn; [repeat split |].
    destruct (get data "chunk") as [chunk | e]; cbn; [| repeat split].
    destruct (truthy chunk); cbn; [repeat split |].
    destruct (get data "error") as [err | e]; cbn; [| repeat split].
    destruct (truthy err); cbn; [repeat split |].
    destruct (get data "done") as [done | e]; cbn; [| repeat split].
    destruct (truthy done); cbn; repeat split.
  - destruct (nth k sources1 false); cbn; repeat split.
  - destruct (nth k sources1 false); cbn; repeat split.
Qed.

Lemma step_malformed (a : CodeChat) (ev : Event) :
  malformed_event JSON_parse ev = true ->
  same_view (step JSON_parse a ev) a.
Proof.
  destruct ev as [text | clk | k event_data | k error | k]; cbn;
    try discriminate.
  unfold onmessage, message_body.
  destruct (JSON_parse event_data); [discriminate |]. intros _.
  destruct (is_open k a); cbn; repeat split.
Qed.

Lemma same_view_trans a b c : same_view a b -> same_view b c -> same_view a c.
Proof.
  unfold same_view. intros (A & B & C & D & E) (A' & B' & C' & D' & E').
  repeat split; congruence.
Qed.

Lemma run_without_malformed (evs : list Event) :
  forall a b,
    same_view a b ->
    same_view (run JSON_parse evs a)
      (run JSON_parse
         (filter (fun ev => negb (malformed_event JSON_parse ev)) evs) b).
Proof.
  unfold run. induction evs as [| ev rest IH]; intros a b same; cbn.
  - exact same.
  - destruct (malformed_event JSON_parse ev) eqn:bad; cbn.
    + apply IH. eapply same_view_trans; [| exact same].
      now apply step_malformed.
    + apply IH. now apply step_same_view.
Qed.
End Views.

End EventFacts.

(** ** The streaming chat component *)
Module StreamFacts.
Import JS Service StreamChat TextFacts.

Local Arguments update_by_id : simpl never.

Section Lines.
Variable JSON_parse : string -> completion json.

Local Abbreviation on_line := (on_line JSON_parse).
Local Abbreviation on_lines := (on_lines JSON_parse).
Local Abbreviation on_read := (on_read JSON_parse).
Local Abbreviation read_loop := (read_loop JSON_parse).
Local Abbreviation fragment_of := (fragment_of JSON_parse).
Local Abbreviation fragments := (fragments JSON_parse).
Local Abbreviation line_log := (line_log JSON_parse).
Local Abbreviation malformed := (malformed JSON_parse).
Local Abbreviation logs_of := (logs_of JSON_parse).

(** *** Updates by id *)

Lemma update_by_id_length target f ms :
  length (update_by_id target f ms) = length ms.
Proof. apply length_map. Qed.

Lemma update_by_id_ids target f ms :
  (forall m, id (f m) = id m) ->
  map id (update_by_id target f ms) = map id ms.
Proof.
  intros keeps. unfold update_by_id. rewrite map_map.
  apply map_ext. intros m. destruct (String.eqb (id m) target); auto.
Qed.

(** A message with another id keeps its place and its value. *)
Lemma update_by_id_other target f ms k m :
  nth_error ms k = Some m ->
  id m <> target ->
  nth_error (update_by_id target f ms) k = Some m.
Proof.
  intros at_k other. unfold update_by_id.
  rewrite nth_error_map, at_k. cbn.
  apply String.eqb_neq in other. now rewrite other.
Qed.

Lemma update_by_id_target target f ms k m :
  nth_error ms k = Some m ->
  id m = target ->
  nth_error (update_by_id target f ms) k = Some (f m).
Proof.
  intros at_k same. unfold update_by_id.
  rewrite nth_error_map, at_k. cbn.
  apply String.eqb_eq in same. now rewrite same.
Qed.

(** A later [with_content] overwrites an earlier one. *)
Lemma with_content_twice target t1 t2 ms :
  update_by_id target (with_content t2)
    (update_by_id target (with_content t1) ms)
  = update_by_id target (with_content t2) ms.
Proof.
  unfold update_by_id. rewrite map_map. apply map_ext. intros m.
  destruct (String.eqb (id m) target) eqn:same; cbn; now rewrite same.
Qed.

(** *** One line *)

Lemma on_line_fragment line lo st text :
  fragment_of line = Some text ->
  on_line line lo st
  = (add_text text lo,
     setMessages
       (update_by_id (assistantLoadingMessage_id lo)
          (with_content (responseText lo ++ text))) st).
Proof.
  unfold StreamChat.fragment_of, StreamChat.on_line, parse_and_apply.
  destruct (startsWith line "data: "); [| discriminate].
  destruct (JSON_parse (substring_from 6 line)) as [data | e];
    [| discriminate].
  destruct (get data "chunk") as [chunk | e]; [| discriminate].
  destruct (truthy chunk); [| discriminate].
  intros [= <-]. reflexivity.
Qed.

Lemma on_line_other line lo st :
  fragment_of line = None ->
  on_line line lo st
  = (lo, match line_log line with
         | [] => st
         | entries => write_console entries st
         end).
Proof.
  unfold StreamChat.fragment_of, StreamChat.line_log, StreamChat.on_line,
    parse_and_apply.
  destruct (startsWith line "data: "); [| reflexivity].
  destruct (JSON_parse (substring_from 6 line)) as [data | e];
    [| reflexivity].
  destruct data; cbn; try reflexivity.
  destruct (truthy (lookup "chunk" fields)); [discriminate |]. intros _.
  now destruct (truthy (lookup "error" fields)).
Qed.

Lemma malformed_no_fragment line :
  malformed line = true -> fragment_of line = None.
Proof.
  unfold StreamChat.malformed, StreamChat.fragment_of.
  destruct (startsWith line "data: "); [| reflexivity].
  now destruct (JSON_parse (substring_from 6 line)).
Qed.

(** A malformed line is dropped with one console entry. *)
Lemma on_line_malformed line lo st :
  malformed line = true ->
  exists e,
    JSON_parse (substring_from 6 line) = Throw e
    /\ on_line line lo st
       = (lo, write_console [Log "Error parsing SSE data:" e] st).
Proof.
  intros bad. rewrite (on_line_other _ _ _ (malformed_no_fragment _ bad)).
  revert bad. unfold StreamChat.malformed, StreamChat.line_log.
  destruct (startsWith line "data: "); [| discriminate].
  destruct (JSON_parse (substring_from 6 line)) as [data | e];
    [discriminate |].
  intros _. now exists e.
Qed.

(** *** A run of lines *)

Lemma on_lines_app l1 l2 lo st :
  on_lines (l1 ++ l2)%list lo st
  = let '(lo', st') := on_lines l1 lo st in on_lines l2 lo' st'.
Proof.
  revert lo st. induction l1 as [| line rest IH]; intros lo st; cbn.
  - reflexivity.
  - destruct (on_line line lo st) as [lo' st']. apply IH.
Qed.

Lemma read_loop_lines values lo st :
  read_loop values lo st
  = on_lines (flat_map (fun v => split v blank_line) values) lo st.
Proof.
  revert lo st. induction values as [| v rest IH]; intros lo st; cbn.
  - reflexivity.
  - rewrite on_lines_app. unfold StreamChat.on_read.
    destruct (on_lines (split v blank_line) lo st) as [lo' st']. apply IH.
Qed.

Lemma fragment_no_log line text :
  fragment_of line = Some text -> line_log line = [].
Proof.
  unfold StreamChat.fragment_of, StreamChat.line_log.
  destruct (startsWith line "data: "); [| reflexivity].
  destruct (JSON_parse (substring_from 6 line)) as [data | e];
    [| discriminate].
  destruct (get data "chunk") as [chunk | e]; [| discriminate].
  now destruct (truthy chunk).
Qed.

(** The loop over the lines, in closed form: the texts of the
    fragments are appended in order; once a fragment has been seen the
    target's content is the accumulated text and its [isLoading] is
    [false]; nothing else of the state changes but the console. *)
Lemma on_lines_closed_form lines :
  forall lo st,
    let texts := fragments lines in
    let lo' := fst (on_lines lines lo st) in
    let st' := snd (on_lines lines lo st) in
    assistantLoadingMessage_id lo' = assistantLoadingMessage_id lo
    /\ query lo' = query lo
    /\ responseText lo' = responseText lo ++ joined texts
    /\ messages st'
       = match texts with
         | [] => messages st
         | _ :: _ =>
             update_by_id (assistantLoadingMessage_id lo)
               (with_content (responseText lo ++ joined texts))
               (messages st)
         end
    /\ input st' = input st
    /\ loading st' = loading st
    /\ toasts st' = toasts st
    /\ console st' = (console st ++ logs_of lines)%list.
Proof.
  induction lines as [| line rest IH]; intros lo st; cbn.
  - rewrite app_nil_r, append_nil_r. repeat split.
  - destruct (fragment_of line) as [text |] eqn:F.
    + rewrite (on_line_fragment _ _ _ _ F).
      rewrite (fragment_no_log _ _ F). cbn.
      specialize (IH (add_text text lo)
                    (setMessages
                       (update_by_id (assistantLoadingMessage_id lo)
                          (with_content (responseText lo ++ text))) st)).
      cbn in IH. destruct IH as (A & Q & R & M & I & L & T & C).
      rewrite A, Q, R, I, L, T, C.
      repeat split; [now rewrite append_assoc |].
      rewrite M. destruct (fragments rest) as [| t ts] eqn:Fr.
      * cbn. now rewrite append_nil_r.
      * rewrite with_content_twice. now rewrite append_assoc.
    + rewrite (on_line_other _ _ _ F).
      destruct (line_log line) as [| entry more] eqn:LL.
      * apply IH.
      * specialize (IH lo (write_console (entry :: more) st)).
        cbn in IH. destruct IH as (A & Q & R & M & I & L & T & C).
        rewrite A, Q, R, M, I, L, T, C. repeat split.
        now rewrite <- app_assoc.
Qed.

Lemma add_text_nil lo : add_text "" lo = lo.
Proof. destruct lo. unfold add_text. cbn. now rewrite append_nil_r. Qed.

Lemma add_text_twice a b lo :
  add_text b (add_text a lo) = add_text (a ++ b) lo.
Proof. unfold add_text. cbn. now rewrite append_assoc. Qed.

Lemma on_lines_locals lines :
  forall lo st,
    fst (on_lines lines lo st) = add_text (joined (fragments lines)) lo.
Proof.
  induction lines as [| line rest IH]; intros lo st; cbn.
  - now rewrite add_text_nil.
  - destruct (fragment_of line) as [text |] eqn:F.
    + rewrite (on_line_fragment _ _ _ _ F), IH. apply add_text_twice.
    + rewrite (on_line_other _ _ _ F). apply IH.
Qed.

(** *** Splitting reads on blank lines *)

Lemma split_record (r rest : string) :
  no_LF r = true ->
  split_from blank_line 0 (r ++ blank_line ++ rest)
  = r :: split_from blank_line 0 rest.
Proof.
  intros clean. induction r as [| c r IH].
  - reflexivity.
  - cbn in clean. apply andb_true_iff in clean as [not_lf clean].
    apply negb_true_iff in not_lf.
    cbn [append split_from].
    assert (no_boundary :
              startsWith (String c (r ++ blank_line ++ rest)) blank_line
              = false).
    { unfold blank_line at 2. cbn [startsWith].
      now rewrite Ascii.eqb_sym, not_lf. }
    now rewrite no_boundary, (IH clean).
Qed.

Lemma split_wire (records : list string) :
  forallb no_LF records = true ->
  split (wire records) blank_line = (records ++ [""])%list.
Proof.
  unfold split. induction records as [| r rest IH]; intros clean.
  - reflexivity.
  - cbn in clean. apply andb_true_iff in clean as [clean_r clean_rest].
    cbn [wire app]. rewrite (split_record _ _ clean_r).
    now rewrite (IH clean_rest).
Qed.

Lemma on_lines_trailing_empty lines lo st :
  on_lines (lines ++ [""])%list lo st = on_lines lines lo st.
Proof.
  rewrite on_lines_app.
  now destruct (on_lines lines lo st) as [lo' st'].
Qed.

Lemma whole_reads_as_lines (groups : list (list string)) :
  forallb (forallb no_LF) groups = true ->
  forall lo st,
    read_loop (map wire groups) lo st = on_lines (List.concat groups) lo st.
Proof.
  induction groups as [| g rest IH]; intros clean lo st.
  - reflexivity.
  - cbn in clean. apply andb_true_iff in clean as [clean_g clean_rest].
    cbn [map StreamChat.read_loop List.concat].
    unfold StreamChat.on_read. rewrite (split_wire _ clean_g).
    rewrite on_lines_trailing_empty, on_lines_app.
    destruct (on_lines g lo st) as [lo' st']. now apply IH.
Qed.

Lemma wire_app (a b : list string) : wire (a ++ b) = wire a ++ wire b.
Proof.
  induction a as [| r a IH]; cbn; [reflexivity |].
  now rewrite IH, !append_assoc.
Qed.

Lemma no_LF_concat (groups : list (list string)) :
  forallb (forallb no_LF) groups = true ->
  forallb no_LF (List.concat groups) = true.
Proof.
  induction groups as [| g rest IH]; cbn; [reflexivity |].
  intros clean. apply andb_true_iff in clean as [clean_g clean_rest].
  rewrite forallb_app, clean_g. now apply IH.
Qed.

Lemma fragments_of_valid lines :
  fragments (filter (fun l => negb (malformed l)) lines) = fragments lines.
Proof.
  induction lines as [| line rest IH]; cbn; [reflexivity |].
  destruct (malformed line) eqn:bad; cbn.
  - now rewrite (malformed_no_fragment _ bad).
  - now rewrite IH.
Qed.

Lemma fragments_app l1 l2 :
  fragments (l1 ++ l2) = (fragments l1 ++ fragments l2)%list.
Proof.
  induction l1 as [| line rest IH]; cbn; [reflexivity |].
  destruct (fragment_of line); cbn; now rewrite IH.
Qed.

Lemma joined_app a b : joined (a ++ b) = joined a ++ joined b.
Proof.
  induction a as [| t a IH]; cbn; [reflexivity |].
  now rewrite IH, append_assoc.
Qed.

(** The target's entry after a run of lines that carried a fragment. *)
Lemma target_after_lines lines lo st k m :
  nth_error (messages st) k = Some m ->
  id m = assistantLoadingMessage_id lo ->
  fragments lines <> [] ->
  nth_error (messages (snd (on_lines lines lo st))) k
  = Some (with_content (responseText lo ++ joined (fragments lines)) m).
Proof.
  intros at_k same some.
  destruct (on_lines_closed_form lines lo st) as (_ & _ & _ & M & _).
  rewrite M. destruct (fragments lines) as [| t ts]; [congruence |].
  now apply update_by_id_target.
Qed.

(** Without a fragment the messages are left as they were. *)
Lemma messages_without_fragment lines lo st :
  fragments lines = [] ->
  messages (snd (on_lines lines lo st)) = messages st.
Proof.
  intros none.
  destruct (on_lines_closed_form lines lo st) as (_ & _ & _ & M & _).
  now rewrite M, none.
Qed.

End Lines.

Import Scenarios.

(** *** Decoding *)


(** C9. The three records [{chunk: Hel}], [{chunk: lo}], [{done: true}]
    leave the assistant message with content [Hello] and [isLoading =
    false], in the stream reader and in the event source component.  In
    general the text accumulated by the read loop is the text before it
    followed by the fragments in their order of arrival; what a later
    part of the stream adds comes after everything accumulated before;
    and once a fragment has arrived the target message holds exactly the
    accumulated text, with [isLoading = false]. *)
Theorem fragments_append_in_arrival_order :
  (let st' := handleSendMessage JsonText.parse (call 1 hello_reads Done)
                (asked "hi") in
   map content (messages st') = ["hi"; "Hello"]
   /\ map isLoading (messages st') = [None; Some false])
  /\ (let st' :=
        EventChat.run JsonText.parse
          [EventChat.Typed "hi"; EventChat.Send (clock 1);
           EventChat.Message 0 (chunk_payload "Hel");
           EventChat.Message 0 (chunk_payload "lo");
           EventChat.Message 0 done_payload]
          EventChat.initial in
      map EventChat.content (EventChat.messages st') = ["hi"; "Hello"]
      /\ map EventChat.isLoading (EventChat.messages st')
         = [Some false; Some false])
  /\ (forall (JSON_parse : string -> completion json)
             (values : list string) (lo : Locals) (st : CodeChat),
         let lines := flat_map (fun v => split v blank_line) values in
         let texts := fragments JSON_parse lines in
         responseText (fst (read_loop JSON_parse values lo st))
         = responseText lo ++ joined texts
         /\ (forall k m,
                nth_error (messages st) k = Some m ->
                id m = assistantLoadingMessage_id lo ->
                texts <> [] ->
                nth_error (messages (snd (read_loop JSON_parse values lo st))) k
                = Some (with_content (responseText lo ++ joined texts) m)))
  /\ (forall (JSON_parse : string -> completion json)
             (earlier later : list string) (lo : Locals) (st : CodeChat),
         responseText
           (fst (read_loop JSON_parse (earlier ++ later) lo st))
         = responseText (fst (read_loop JSON_parse earlier lo st))
           ++ joined (fragments JSON_parse
                        (flat_map (fun v => split v blank_line) later))).
Proof.
  split; [vm_compute; split; reflexivity |].
  split; [vm_compute; split; reflexivity |].
  split.
  - intros JSON_parse values lo st lines texts. subst texts.
    rewrite read_loop_lines. fold lines. split.
    + now destruct (on_lines_closed_form JSON_parse lines lo st)
        as (_ & _ & R & _).
    + intros k m at_k same some. now apply target_after_lines.
  - intros JSON_parse earlier later lo st.
    rewrite !read_loop_lines, flat_map_app.
    rewrite !on_lines_locals, fragments_app, joined_app. cbn.
    now rewrite append_assoc.
Qed.

(** C4 does not hold as stated: a record cut in two by the transport is
    lost.  The first piece fails to parse and the second is no data line,
    although the two pieces together are the text of one well-formed
    record, which read in one piece gives its fragment. *)
Lemma cut_record_is_lost :
  joined cut_reads = joined uncut_reads
  /\ map content
       (messages (handleSendMessage JsonText.parse (call 1 cut_reads Done)
                    (asked "hi")))
     = ["hi"; ""]
  /\ map content
       (messages (handleSendMessage JsonText.parse (call 1 uncut_reads Done)
                    (asked "hi")))
     = ["hi"; "Hello"]
  /\ fragments JsonText.parse
       (flat_map (fun v => split v blank_line) cut_reads) = []
  /\ fragments JsonText.parse
       (flat_map (fun v => split v blank_line) uncut_reads) = ["Hello"].
Proof. vm_compute. repeat split. Qed.

(** C4, as the code has it.  Each read is split and parsed on its own
    and nothing is carried over to the next read.  When every read holds
    whole records only (each closed by its blank line, none with a line
    feed inside), reading them one by one gives the same result as
    reading the whole stream in one piece, namely handling the records
    one after the other. *)
Theorem reads_of_whole_records_decode_like_the_stream
    (JSON_parse : string -> completion json)
    (groups : list (list string)) (lo : Locals) (st : CodeChat) :
  forallb (forallb no_LF) groups = true ->
  read_loop JSON_parse (map wire groups) lo st
  = read_loop JSON_parse [wire (List.concat groups)] lo st
  /\ read_loop JSON_parse (map wire groups) lo st
     = on_lines JSON_parse (List.concat groups) lo st.
Proof.
  intros clean.
  rewrite (whole_reads_as_lines JSON_parse groups clean).
  split; [| reflexivity].
  pose proof (whole_reads_as_lines JSON_parse [List.concat groups]) as one.
  cbn [map List.concat forallb] in one.
  rewrite app_nil_r, (no_LF_concat groups clean) in one.
  now rewrite (one eq_refl).
Qed.

(** C4 as amended, on three records delivered in two reads. *)
Lemma whole_records_in_two_reads :
  read_loop JsonText.parse
    [wire ["data: " ++ chunk_payload "Hel"];
     wire ["data: " ++ chunk_payload "lo"; "data: " ++ done_payload]]
    (fst (started 1 "hi")) (snd (started 1 "hi"))
  = read_loop JsonText.parse
      [wire ["data: " ++ chunk_payload "Hel"; "data: " ++ chunk_payload "lo";
             "data: " ++ done_payload]]
      (fst (started 1 "hi")) (snd (started 1 "hi")).
Proof.
  exact (proj1 (reads_of_whole_records_decode_like_the_stream JsonText.parse
                  [["data: " ++ chunk_payload "Hel"];
                   ["data: " ++ chunk_payload "lo"; "data: " ++ done_payload]]
                  (fst (started 1 "hi")) (snd (started 1 "hi")) eq_refl)).
Defined.

(** *** Failures *)

(** C3 does not hold as stated.  After the records [{chunk: A}],
    [{error: boom}] the message holds [A], not [boom]: the exception
    raised for the error record is caught by the [catch] around the
    parse.  And where the outer [catch] does run, after a rejected
    read, the content is the apology followed by [boom], not [boom]. *)
Lemma error_record_leaves_the_turn_as_it_was :
  (let st' := handleSendMessage JsonText.parse (call 1 boom_reads Done)
                (asked "hi") in
   map content (messages st') = ["hi"; "A"]
   /\ map isLoading (messages st') = [None; Some false]
   /\ console st' = [Log "Error parsing SSE data:" (ErrorObj "boom")])
  /\ (let st' :=
        handleSendMessage JsonText.parse
          (call 1 [record (chunk_payload "A")] (Errored (ErrorObj "boom")))
          (asked "hi") in
      map content (messages st')
      = ["hi"; "Sorry, I couldn't process your request. boom"]
      /\ "Sorry, I couldn't process your request. boom" <> "boom").
Proof. vm_compute. repeat split; discriminate. Qed.

(** The messages the [try] block leaves behind when an exception leaves
    it: those before it, with the target possibly holding streamed text. *)
Lemma try_block_failed (JSON_parse : string -> completion json)
    (c : Call) (lo : Locals) (st : CodeChat) (error : thrown) :
  snd (try_block JSON_parse c lo st) = Some error ->
  forall text,
    update_by_id (assistantLoadingMessage_id lo) (with_content text)
      (messages (fst (try_block JSON_parse c lo st)))
    = update_by_id (assistantLoadingMessage_id lo) (with_content text)
        (messages st).
Proof.
  unfold try_block.
  destruct (queryCode (query lo) true (stream_net c)) as [logs [result | e]];
    [| intros _ text; reflexivity].
  destruct result as [r | [stream |]]; try (intros _ text; reflexivity).
  pose proof (read_loop_lines JSON_parse (reads stream) lo
                (write_console logs st)) as lines_eq.
  destruct (on_lines_closed_form JSON_parse
              (flat_map (fun v => split v blank_line) (reads stream)) lo
              (write_console logs st)) as (A & Q & _ & M & _).
  rewrite <- lines_eq in A, Q, M.
  destruct (read_loop JSON_parse (reads stream) lo (write_console logs st))
    as [lo' st'].
  cbn [fst snd] in *.
  assert (kept : forall text,
             update_by_id (assistantLoadingMessage_id lo) (with_content text)
               (messages st')
             = update_by_id (assistantLoadingMessage_id lo) (with_content text)
                 (messages st)).
  { intros text. rewrite M.
    destruct (fragments JSON_parse _); [reflexivity |].
    apply with_content_twice. }
  destruct (ending stream) as [| e]; [| intros _; exact kept].
  unfold follow_up.
  destruct (queryCode (query lo') false (followup_net c))
    as [logs' [full | e]]; [| intros _; exact kept].
  destruct full as [[typed |] | s]; cbn [fst snd].
  - destruct (success typed), (relevant_files typed); discriminate.
  - intros _. exact kept.
  - discriminate.
Qed.

(** C3, as the code has it.  When an exception leaves the [try] block
    (a read of the stream that rejects, a missing or unusable stream, a
    follow-up answer that is no object) the call ends with the
    component's loading flag cleared and with the target message holding
    [Sorry, I couldn't process your request. ] followed by the error's
    message, [isLoading = false], whatever fragments it held before; the
    read loop has ended by then, so nothing is appended afterwards.  A
    rejected read is such an exception. *)
Theorem failure_in_catch_marks_the_turn_failed
    (JSON_parse : string -> completion json)
    (c : Call) (lo : Locals) (st : CodeChat) (error : thrown) :
  snd (try_block JSON_parse c lo st) = Some error ->
  let st' := settle JSON_parse c lo st in
  loading st' = false
  /\ messages st'
     = update_by_id (assistantLoadingMessage_id lo)
         (with_content (failure_text error)) (messages st)
  /\ (forall k m,
         nth_error (messages st) k = Some m ->
         id m = assistantLoadingMessage_id lo ->
         exists m',
           nth_error (messages st') k = Some m'
           /\ content m' = sorry ++ match error with
                                     | ErrorObj text => text
                                     | NonError _ => "An unknown error occurred."
                                     end
           /\ isLoading m' = Some false).
Proof.
  intros failed st'. subst st'. unfold settle.
  pose proof (try_block_failed JSON_parse c lo st error failed
                (failure_text error)) as kept.
  destruct (try_block JSON_parse c lo st) as [st1 exn].
  cbn [fst snd] in *. subst exn.
  cbn [loading messages setIsLoading catch_block toast setMessages
         write_console].
  rewrite kept. repeat split.
  intros k m at_k same.
  exists (with_content (failure_text error) m). repeat split.
  now apply update_by_id_target.
Qed.

(** A rejected read ends the [try] block with its error. *)
Lemma rejected_read_leaves_try_block
    (JSON_parse : string -> completion json)
    (c : Call) (lo : Locals) (st : CodeChat)
    (r : Response (option LLMResponse)) (stream : ReadableStream)
    (e : thrown) :
  stream_net c = Resolved r ->
  ok r = true ->
  body r = Some stream ->
  ending stream = Errored e ->
  snd (try_block JSON_parse c lo st) = Some e.
Proof.
  intros net fine has_body ends. unfold try_block.
  pose proof (ServiceFacts.queryCode_streamed_result (query lo) (stream_net c))
    as answer.
  destruct (queryCode (query lo) true (stream_net c)) as [logs result].
  cbn in answer. subst result. rewrite net, fine, has_body.
  destruct (read_loop JSON_parse (reads stream) lo (write_console logs st)).
  now rewrite ends.
Qed.

(** C3 as amended, on a stream whose second read rejects with [boom]. *)
Lemma failure_in_catch_after_rejected_read :
  let c := call 1 [record (chunk_payload "A")] (Errored (ErrorObj "boom")) in
  let st' := settle JsonText.parse c (fst (started 1 "hi"))
               (snd (started 1 "hi")) in
  loading st' = false
  /\ messages st'
     = update_by_id "assistant-1"
         (with_content "Sorry, I couldn't process your request. boom")
         (messages (snd (started 1 "hi"))).
Proof.
  intros c st'.
  destruct (failure_in_catch_marks_the_turn_failed JsonText.parse c
              (fst (started 1 "hi")) (snd (started 1 "hi")) (ErrorObj "boom")
              eq_refl) as (L & M & _).
  split; [exact L | exact M].
Defined.

(** *** Turns left loading *)

(** An [{error}] record never reaches the outer [catch]: the exception
    made from it is logged by the [catch] inside the loop and the loop
    goes on. *)
Lemma error_record_is_swallowed
    (JSON_parse : string -> completion json)
    (line : string) (fields : list (string * json)) (err : json)
    (lo : Locals) (st : CodeChat) :
  startsWith line "data: " = true ->
  JSON_parse (substring_from 6 line) = Return (JObj fields) ->
  truthy (lookup "chunk" fields) = false ->
  lookup "error" fields = Some err ->
  truthy (Some err) = true ->
  on_line JSON_parse line lo st
  = (lo, write_console [Log "Error parsing SSE data:" (ErrorObj (ToString err))]
           st).
Proof.
  intros data parsed no_chunk has_error is_error.
  unfold on_line, parse_and_apply. rewrite data, parsed. cbn [get].
  now rewrite no_chunk, has_error, is_error.
Qed.

(** Without a fragment, and with no exception leaving the [try] block,
    the call touches neither the content nor the [isLoading] of any
    message: a placeholder that was loading is still loading when the
    call is over. *)
Lemma call_without_fragment_keeps_the_flag
    (JSON_parse : string -> completion json)
    (c : Call) (lo : Locals) (st : CodeChat)
    (r : Response (option LLMResponse)) (stream : ReadableStream) :
  stream_net c = Resolved r ->
  ok r = true ->
  body r = Some stream ->
  fragments JSON_parse (flat_map (fun v => split v blank_line) (reads stream))
  = [] ->
  snd (try_block JSON_parse c lo st) = None ->
  loading (settle JSON_parse c lo st) = false
  /\ map content (messages (settle JSON_parse c lo st))
     = map content (messages st)
  /\ map isLoading (messages (settle JSON_parse c lo st))
     = map isLoading (messages st).
Proof.
  intros net fine has_body none. unfold settle, try_block.
  pose proof (ServiceFacts.queryCode_streamed_result (query lo) (stream_net c))
    as answer.
  destruct (queryCode (query lo) true (stream_net c)) as [logs result].
  cbn in answer. subst result. rewrite net, fine, has_body.
  pose proof (read_loop_lines JSON_parse (reads stream) lo
                (write_console logs st)) as lines_eq.
  pose proof (messages_without_fragment JSON_parse _ lo
                (write_console logs st) none) as same.
  rewrite <- lines_eq in same.
  destruct (read_loop JSON_parse (reads stream) lo (write_console logs st))
    as [lo' st'].
  cbn [snd messages write_console] in same.
  destruct (ending stream) as [| e]; [| discriminate].
  unfold follow_up.
  destruct (queryCode (query lo') false (followup_net c))
    as [logs' [full | e]]; [| discriminate].
  destruct full as [[typed |] | s]; cbn [fst snd]; try discriminate.
  - destruct (success typed), (relevant_files typed) as [files |];
      intros _; cbn; rewrite <- same; repeat split.
    + unfold update_by_id. rewrite map_map. apply map_ext.
      intros m. now destruct (String.eqb (id m) _).
    + unfold update_by_id. rewrite map_map. apply map_ext.
      intros m. now destruct (String.eqb (id m) _).
  - intros _. cbn. rewrite <- same. repeat split.
Qed.

(** C7 fails here: a stream that ends without a content fragment, be it
    through a [{done: true}] record, through an [{error}] record or with no
    record at all, leaves the assistant message with [isLoading = true]
    after the call has finished and the component's own flag is cleared. *)
Theorem stream_without_content_leaves_the_turn_loading :
  (let st' := handleSendMessage JsonText.parse
                (call 1 [record done_payload] Done) (asked "hi") in
   loading st' = false
   /\ map content (messages st') = ["hi"; ""]
   /\ map isLoading (messages st') = [None; Some true])
  /\ (let st' := handleSendMessage JsonText.parse
                   (call 1 [record (error_payload "boom")] Done) (asked "hi") in
      loading st' = false
      /\ map content (messages st') = ["hi"; ""]
      /\ map isLoading (messages st') = [None; Some true])
  /\ (let st' := handleSendMessage JsonText.parse (call 1 [] Done)
                   (asked "hi") in
      loading st' = false
      /\ map isLoading (messages st') = [None; Some true]).
Proof. vm_compute. repeat split. Qed.

(** *** Updates are addressed by id *)

Lemma only_target_refl target ms : only_target target ms ms.
Proof. split; auto. Qed.

Lemma only_target_trans target a b c :
  only_target target a b -> only_target target b c -> only_target target a c.
Proof.
  intros [Lab Hab] [Lbc Hbc]. split; [congruence |].
  intros k m at_k other. apply Hbc; auto.
Qed.

Lemma only_target_update target f ms :
  only_target target ms (update_by_id target f ms).
Proof.
  split; [apply update_by_id_length |].
  intros k m at_k other. now apply update_by_id_other.
Qed.

Lemma read_loop_only_target (JSON_parse : string -> completion json)
    (values : list string) (lo : Locals) (st : CodeChat) :
  only_target (assistantLoadingMessage_id lo) (messages st)
    (messages (snd (read_loop JSON_parse values lo st))).
Proof.
  rewrite read_loop_lines.
  destruct (on_lines_closed_form JSON_parse
              (flat_map (fun v => split v blank_line) values) lo st)
    as (_ & _ & _ & M & _).
  rewrite M. destruct (fragments JSON_parse _).
  - apply only_target_refl.
  - apply only_target_update.
Qed.

Lemma follow_up_only_target (c : Call) (lo : Locals) (st : CodeChat) :
  only_target (assistantLoadingMessage_id lo) (messages st)
    (messages (fst (follow_up c lo st))).
Proof.
  unfold follow_up.
  destruct (queryCode (query lo) false (followup_net c))
    as [logs [full | e]]; [| apply only_target_refl].
  destruct full as [[typed |] | s]; try apply only_target_refl.
  destruct (success typed), (relevant_files typed);
    try apply only_target_refl.
  apply only_target_update.
Qed.

(** Whatever the network does during a call, and whatever the
    conversation holds when its updates arrive, the call changes no
    message but those carrying the id of its own assistant message: every
    other message keeps its place and its value, and none is added or
    removed. *)
Lemma settle_only_target (JSON_parse : string -> completion json)
    (c : Call) (lo : Locals) (st : CodeChat) :
  only_target (assistantLoadingMessage_id lo) (messages st)
    (messages (settle JSON_parse c lo st)).
Proof.
  unfold settle.
  assert (tried : only_target (assistantLoadingMessage_id lo) (messages st)
                    (messages (fst (try_block JSON_parse c lo st)))).
  { unfold try_block.
    destruct (queryCode (query lo) true (stream_net c))
      as [logs [result | e]]; [| apply only_target_refl].
    destruct result as [r | [stream |]]; try apply only_target_refl.
    pose proof (read_loop_only_target JSON_parse (reads stream) lo
                  (write_console logs st)) as read.
    pose proof (read_loop_lines JSON_parse (reads stream) lo
                  (write_console logs st)) as lines_eq.
    destruct (on_lines_closed_form JSON_parse
                (flat_map (fun v => split v blank_line) (reads stream)) lo
                (write_console logs st)) as (A & _).
    rewrite <- lines_eq in A.
    destruct (read_loop JSON_parse (reads stream) lo (write_console logs st))
      as [lo' st'].
    cbn [fst snd] in *.
    destruct (ending stream); [| exact read].
    eapply only_target_trans; [exact read |].
    rewrite <- A. apply follow_up_only_target. }
  destruct (try_block JSON_parse c lo st) as [st1 [error |]];
    cbn [fst] in tried; [| exact tried].
  eapply only_target_trans; [exact tried |].
  apply only_target_update.
Qed.

(** The same holds while the conversation grows: messages appended after
    the call began are not touched by its later updates either. *)
Lemma late_fragments_touch_only_their_turn
    (JSON_parse : string -> completion json)
    (values : list string) (lo : Locals) (st : CodeChat)
    (appended : list ChatMessageType) :
  Forall (fun m => id m <> assistantLoadingMessage_id lo) appended ->
  exists updated,
    messages
      (snd (read_loop JSON_parse values lo
              (setMessages (fun ms => (ms ++ appended)%list) st)))
    = (updated ++ appended)%list
    /\ only_target (assistantLoadingMessage_id lo) (messages st) updated.
Proof.
  intros others. rewrite read_loop_lines.
  destruct (on_lines_closed_form JSON_parse
              (flat_map (fun v => split v blank_line) values) lo
              (setMessages (fun ms => (ms ++ appended)%list) st))
    as (_ & _ & _ & M & _).
  rewrite M. cbn [messages setMessages].
  destruct (fragments JSON_parse _) as [| t ts].
  - exists (messages st). split; [reflexivity | apply only_target_refl].
  - exists (update_by_id (assistantLoadingMessage_id lo)
              (with_content (responseText lo ++ joined (t :: ts)))
              (messages st)).
    split; [| apply only_target_update].
    unfold update_by_id. rewrite map_app. f_equal. clear M.
    induction others as [| m rest other _ IH]; [reflexivity |].
    cbn [map]. apply String.eqb_neq in other. rewrite other.
    f_equal. exact IH.
Qed.

(** *** One call at a time *)

(** While a call is in flight (its two messages appended, any part of
    its stream read) the input element is disabled and empty, so neither
    typing nor another [handleSendMessage] changes anything. *)
Lemma no_second_call_while_in_flight
    (JSON_parse : string -> completion json)
    (c other : Call) (st : CodeChat) (values : list string) (text : string) :
  let '(lo, st0) := begin c st in
  let in_flight := snd (read_loop JSON_parse values lo st0) in
  loading in_flight = true
  /\ input in_flight = ""
  /\ onChange text in_flight = in_flight
  /\ handleSendMessage JSON_parse other in_flight = in_flight.
Proof.
  cbn [begin]. rewrite read_loop_lines.
  match goal with
  | |- context [on_lines JSON_parse ?ls ?lo ?s] =>
      destruct (on_lines_closed_form JSON_parse ls lo s)
        as (_ & _ & _ & _ & I & L & _);
      set (in_flight := snd (on_lines JSON_parse ls lo s)) in *
  end.
  cbn in I, L. unfold onChange, handleSendMessage.
  rewrite I, L. repeat split.
Qed.

(** C5 fails here, through the defect of C7: the first call's stream
    ends without content, so its assistant message stays at [isLoading =
    true] after the call is over; a second query is then accepted, and
    two assistant messages are loading at once. *)
Theorem two_assistant_turns_loading_at_once :
  (let st1 := handleSendMessage JsonText.parse
                (call 1 [record done_payload] Done) (asked "first") in
   let st2 := snd (begin (call 2 hello_reads Done) (onChange "second" st1)) in
   loading st1 = false
   /\ map id (messages st2)
      = ["user-1"; "assistant-1"; "user-2"; "assistant-2"]
   /\ map isLoading (messages st2) = [None; Some true; None; Some true])
  /\ (let st2 :=
        EventChat.run JsonText.parse
          [EventChat.Typed "first"; EventChat.Send (clock 100);
           EventChat.Message 0 done_payload;
           EventChat.Typed "second"; EventChat.Send (clock 200)]
          EventChat.initial in
      map EventChat.type (EventChat.messages st2)
      = [EventChat.USER; EventChat.ASSISTANT;
         EventChat.USER; EventChat.ASSISTANT]
      /\ map EventChat.isLoading (EventChat.messages st2)
         = [Some false; Some true; Some false; Some true]).
Proof. vm_compute. repeat split. Qed.

End StreamFacts.

(** ** Whole calls of the stream reader *)
Module StreamCalls.
Import JS Service Calls StreamChat TextFacts StreamFacts Scenarios.

Local Arguments update_by_id : simpl never.

(** *** What the service returns for the two requests of a call *)

Lemma streaming_request_answered (query : string)
    (r : Response (option LLMResponse)) :
  ok r = true ->
  queryCode query true (Resolved r) = ([], Return (Streamed (body r))).
Proof. intros fine. unfold queryCode. cbn. now rewrite fine. Qed.

Lemma streaming_request_failed (query : string)
    (net : fetch_outcome (option LLMResponse)) (e : thrown) :
  stream_failure net = Some e ->
  queryCode query true net
  = ([Log "Error querying code:" e], Return (Buffered (Some (query_fallback e)))).
Proof.
  unfold stream_failure, queryCode. destruct net as [e0 | r]; cbn.
  - now intros [= ->].
  - destruct (ok r); cbn; [discriminate | now intros [= <-]].
Qed.

Lemma buffered_request_failed (query : string)
    (net : fetch_outcome (option LLMResponse)) (e : thrown) :
  attempt net = inl e ->
  queryCode query false net
  = ([Log "Error querying code:" e], Return (Buffered (Some (query_fallback e)))).
Proof.
  unfold attempt, queryCode. destruct net as [e0 | r]; cbn.
  - now intros [= ->].
  - destruct (ok r); cbn; [| now intros [= <-]].
    destruct (json_body r); cbn; [discriminate | now intros [= ->]].
Qed.

Lemma buffered_request_answered (query : string)
    (net : fetch_outcome (option LLMResponse)) (v : option LLMResponse) :
  attempt net = inr v ->
  queryCode query false net = ([], Return (Buffered v)).
Proof.
  unfold attempt, queryCode. destruct net as [e0 | r]; cbn; [discriminate |].
  destruct (ok r); cbn; [| discriminate].
  destruct (json_body r); cbn; [now intros [= ->] | discriminate].
Qed.

(** *** States *)

Lemma write_console_nil (st : CodeChat) : write_console [] st = st.
Proof. destruct st. unfold write_console. cbn. now rewrite app_nil_r. Qed.

Lemma update_by_id_same target ms :
  update_by_id target (fun m => m) ms = ms.
Proof.
  unfold update_by_id. rewrite <- (map_id ms) at 2. apply map_ext.
  intros m. now destruct (String.eqb (id m) target).
Qed.

Lemma update_by_id_compose target f g ms :
  keeps_identity f ->
  update_by_id target g (update_by_id target f ms)
  = update_by_id target (fun m => g (f m)) ms.
Proof.
  intros keeps. unfold update_by_id. rewrite map_map. apply map_ext.
  intros m. destruct (String.eqb (id m) target) eqn:same; [| now rewrite same].
  destruct (keeps m) as (same_id & _). now rewrite same_id, same.
Qed.

Lemma keeps_identity_compose f g :
  keeps_identity f -> keeps_identity g -> keeps_identity (fun m => g (f m)).
Proof.
  intros kf kg m. destruct (kf m) as (A & B & C), (kg (f m)) as (A' & B' & C').
  repeat split; congruence.
Qed.

Lemma with_content_keeps text : keeps_identity (with_content text).
Proof. intros m. repeat split. Qed.

Lemma with_relevantFiles_keeps files :
  keeps_identity (with_relevantFiles files).
Proof. intros m. repeat split. Qed.

Lemma touches_only_refl target st : touches_only target st st.
Proof.
  exists (fun m => m), [], []. rewrite update_by_id_same, !app_nil_r.
  split; [intros m; repeat split | repeat split].
Qed.

Lemma touches_only_trans target a b c :
  touches_only target a b -> touches_only target b c ->
  touches_only target a c.
Proof.
  intros (f & l & t & kf & M & I & C & T) (g & l' & t' & kg & M' & I' & C' & T').
  exists (fun m => g (f m)), (l ++ l')%list, (t ++ t')%list.
  split; [now apply keeps_identity_compose |].
  rewrite M', M, I', I, C', C, T', T, !app_assoc.
  rewrite update_by_id_compose by exact kf. repeat split.
Qed.

Lemma touches_only_update target f st :
  keeps_identity f ->
  touches_only target st (setMessages (update_by_id target f) st).
Proof.
  intros keeps. exists f, [], []. cbn. rewrite !app_nil_r.
  split; [exact keeps | repeat split].
Qed.

Lemma touches_only_console target logs st :
  touches_only target st (write_console logs st).
Proof.
  exists (fun m => m), logs, []. cbn.
  rewrite update_by_id_same, app_nil_r.
  split; [intros m; repeat split | repeat split].
Qed.

Lemma touches_only_toast target t st : touches_only target st (toast t st).
Proof.
  exists (fun m => m), [], [t]. cbn.
  rewrite update_by_id_same, app_nil_r.
  split; [intros m; repeat split | repeat split].
Qed.

Lemma touches_only_loading target b st st' :
  touches_only target st st' -> touches_only target st (setIsLoading b st').
Proof. intros (f & l & t & H). exists f, l, t. exact H. Qed.

Lemma on_line_touches (JSON_parse : string -> completion json)
    (line : string) (lo : Locals) (st : CodeChat) :
  assistantLoadingMessage_id (fst (on_line JSON_parse line lo st))
  = assistantLoadingMessage_id lo
  /\ loading (snd (on_line JSON_parse line lo st)) = loading st
  /\ touches_only (assistantLoadingMessage_id lo) st
       (snd (on_line JSON_parse line lo st)).
Proof.
  destruct (fragment_of JSON_parse line) as [text |] eqn:F.
  - rewrite (on_line_fragment JSON_parse _ _ _ _ F). cbn [fst snd].
    repeat split.
    apply touches_only_update, with_content_keeps.
  - rewrite (on_line_other JSON_parse _ _ _ F). cbn [fst snd].
    destruct (line_log JSON_parse line); repeat split.
    + apply touches_only_refl.
    + apply touches_only_console.
Qed.

Lemma on_lines_touches (JSON_parse : string -> completion json)
    (lines : list string) :
  forall lo st,
    assistantLoadingMessage_id (fst (on_lines JSON_parse lines lo st))
    = assistantLoadingMessage_id lo
    /\ loading (snd (on_lines JSON_parse lines lo st)) = loading st
    /\ touches_only (assistantLoadingMessage_id lo) st
         (snd (on_lines JSON_parse lines lo st)).
Proof.
  induction lines as [| line rest IH]; intros lo st; cbn [on_lines].
  - repeat split. apply touches_only_refl.
  - destruct (on_line_touches JSON_parse line lo st) as (A & L & T).
    destruct (on_line JSON_parse line lo st) as [lo' st']. cbn [fst snd] in *.
    destruct (IH lo' st') as (A' & L' & T').
    rewrite A', L', A, L. repeat split.
    eapply touches_only_trans; [exact T |]. now rewrite <- A.
Qed.

Lemma follow_up_touches (c : Call) (lo : Locals) (st : CodeChat) :
  loading (fst (follow_up c lo st)) = loading st
  /\ touches_only (assistantLoadingMessage_id lo) st (fst (follow_up c lo st)).
Proof.
  unfold follow_up.
  destruct (queryCode (query lo) false (followup_net c))
    as [logs [full | e]]; cbn [fst];
    [| split; [reflexivity | apply touches_only_console]].
  destruct full as [[typed |] | s]; cbn [fst];
    try (split; [reflexivity | apply touches_only_console]).
  destruct (success typed), (relevant_files typed); cbn [fst];
    try (split; [reflexivity | apply touches_only_console]).
  split; [reflexivity |].
  eapply touches_only_trans; [apply touches_only_console |].
  apply touches_only_update, with_relevantFiles_keeps.
Qed.

Lemma try_block_touches (JSON_parse : string -> completion json)
    (c : Call) (lo : Locals) (st : CodeChat) :
  loading (fst (try_block JSON_parse c lo st)) = loading st
  /\ touches_only (assistantLoadingMessage_id lo) st
       (fst (try_block JSON_parse c lo st)).
Proof.
  unfold try_block.
  destruct (queryCode (query lo) true (stream_net c))
    as [logs [result | e]]; cbn [fst];
    [| split; [reflexivity | apply touches_only_console]].
  destruct result as [r | [stream |]]; cbn [fst];
    try (split; [reflexivity | apply touches_only_console]).
  rewrite read_loop_lines.
  destruct (on_lines_touches JSON_parse
              (flat_map (fun v => split v blank_line) (reads stream)) lo
              (write_console logs st)) as (A & L & T).
  destruct (on_lines JSON_parse _ lo (write_console logs st)) as [lo' st'].
  cbn [fst snd] in *.
  assert (read : touches_only (assistantLoadingMessage_id lo) st st').
  { eapply touches_only_trans; [apply touches_only_console | exact T]. }
  destruct (ending stream); cbn [fst]; [| split; [exact L | exact read]].
  destruct (follow_up_touches c lo' st') as (L' & T').
  rewrite L', L. split; [reflexivity |].
  eapply touches_only_trans; [exact read |]. now rewrite <- A.
Qed.

Lemma catch_block_touches (lo : Locals) (error : thrown) (st : CodeChat) :
  touches_only (assistantLoadingMessage_id lo) st (catch_block lo error st).
Proof.
  unfold catch_block.
  eapply touches_only_trans; [apply touches_only_console |].
  eapply touches_only_trans;
    [apply touches_only_update, with_content_keeps | apply touches_only_toast].
Qed.

Lemma settle_touches (JSON_parse : string -> completion json)
    (c : Call) (lo : Locals) (st : CodeChat) :
  loading (settle JSON_parse c lo st) = false
  /\ touches_only (assistantLoadingMessage_id lo) st
       (settle JSON_parse c lo st).
Proof.
  unfold settle.
  destruct (try_block_touches JSON_parse c lo st) as (_ & T).
  destruct (try_block JSON_parse c lo st) as [st1 [error |]];
    cbn [fst] in T; split; try reflexivity; apply touches_only_loading.
  - eapply touches_only_trans; [exact T | apply catch_block_touches].
  - exact T.
Qed.

Lemma update_by_id_fresh target f ms :
  Forall (fun m => id m <> target) ms -> update_by_id target f ms = ms.
Proof.
  intros fresh. unfold update_by_id.
  induction fresh as [| m rest other _ IH]; [reflexivity |].
  cbn [map]. apply String.eqb_neq in other. now rewrite other, IH.
Qed.

Lemma update_by_id_app target f a b :
  update_by_id target f (a ++ b)
  = (update_by_id target f a ++ update_by_id target f b)%list.
Proof. apply map_app. Qed.

(** The call once its streaming request has been answered with a
    stream: the reads, then the rejected read or the follow-up. *)
Lemma settle_streamed (JSON_parse : string -> completion json)
    (c : Call) (lo : Locals) (st : CodeChat)
    (r : Response (option LLMResponse)) (stream : ReadableStream) :
  stream_net c = Resolved r ->
  ok r = true ->
  body r = Some stream ->
  settle JSON_parse c lo st
  = let '(lo', st1) := read_loop JSON_parse (reads stream) lo st in
    match ending stream with
    | Errored e => setIsLoading false (catch_block lo e st1)
    | Done =>
        let '(st2, exn) := follow_up c lo' st1 in
        setIsLoading false
          (match exn with
           | Some e => catch_block lo e st2
           | None => st2
           end)
    end.
Proof.
  intros net fine has_body. unfold settle, try_block.
  rewrite net, (streaming_request_answered _ _ fine), has_body.
  rewrite write_console_nil.
  destruct (read_loop JSON_parse (reads stream) lo st) as [lo' st1].
  now destruct (ending stream).
Qed.

(** The messages once the stream has been read to its end. *)
Lemma messages_after_reads (JSON_parse : string -> completion json)
    (values : list string) (lo : Locals) (st : CodeChat) :
  messages (snd (read_loop JSON_parse values lo st))
  = match fragments JSON_parse
            (flat_map (fun v => split v blank_line) values) with
    | [] => messages st
    | texts =>
        update_by_id (assistantLoadingMessage_id lo)
          (with_content (responseText lo ++ joined texts)) (messages st)
    end.
Proof.
  rewrite read_loop_lines.
  destruct (on_lines_closed_form JSON_parse
              (flat_map (fun v => split v blank_line) values) lo st)
    as (_ & _ & _ & M & _).
  rewrite M. now destruct (fragments JSON_parse _).
Qed.

Lemma locals_after_reads (JSON_parse : string -> completion json)
    (values : list string) (lo : Locals) (st : CodeChat) :
  assistantLoadingMessage_id (fst (read_loop JSON_parse values lo st))
  = assistantLoadingMessage_id lo
  /\ query (fst (read_loop JSON_parse values lo st)) = query lo.
Proof.
  rewrite read_loop_lines.
  destruct (on_lines_closed_form JSON_parse
              (flat_map (fun v => split v blank_line) values) lo st)
    as (A & Q & _).
  now split.
Qed.

(** *** Properties of a call *)

(** X1. A call on a non-blank input, with ids that are new to the
    conversation, ends with the conversation it found followed by
    exactly two messages: the user's, holding the input, and the
    assistant's, under the id, role and timestamp of the placeholder.  The
    input is left empty and the component is no longer loading. *)
Theorem call_appends_one_exchange
    (JSON_parse : string -> completion json) (c : Call) (st : CodeChat) :
  trim_is_empty (input st) = false ->
  uuid_user c <> uuid_assistant c ->
  Forall (fun m => id m <> uuid_assistant c) (messages st) ->
  let st' := handleSendMessage JSON_parse c st in
  exists answer,
    messages st' = (messages st ++ [userMessage c (input st); answer])%list
    /\ id answer = uuid_assistant c
    /\ role answer = assistant
    /\ timestamp answer = date_assistant c
    /\ input st' = ""
    /\ loading st' = false.
Proof.
  intros filled distinct fresh st'. subst st'.
  unfold handleSendMessage. rewrite filled. cbn [begin].
  match goal with
  | |- context [settle JSON_parse c ?lo ?s] =>
      destruct (settle_touches JSON_parse c lo s) as (L & f & logs & shown & T);
      set (final := settle JSON_parse c lo s) in *
  end.
  cbn in T. destruct T as (keeps & M & I & _).
  exists (f (assistantLoadingMessage c)).
  destruct (keeps (assistantLoadingMessage c)) as (same_id & same_role & same_date).
  rewrite M, I, L, same_id, same_role, same_date.
  repeat split.
  rewrite update_by_id_app, (update_by_id_fresh _ _ _ fresh).
  f_equal. unfold update_by_id. cbn.
  apply String.eqb_neq in distinct. rewrite distinct.
  now rewrite String.eqb_refl.
Qed.

(** X1 on the first question of a conversation. *)
Lemma call_appends_one_exchange_at_first_question :
  exists answer,
    messages (handleSendMessage JsonText.parse (call 1 hello_reads Done)
                (asked "hi"))
    = [userMessage (call 1 hello_reads Done) "hi"; answer]
    /\ id answer = "assistant-1"
    /\ role answer = assistant
    /\ timestamp answer = 1
    /\ input (handleSendMessage JsonText.parse (call 1 hello_reads Done)
                (asked "hi")) = ""
    /\ loading (handleSendMessage JsonText.parse (call 1 hello_reads Done)
                  (asked "hi")) = false.
Proof.
  refine (call_appends_one_exchange JsonText.parse (call 1 hello_reads Done)
            (asked "hi") eq_refl _ (Forall_nil _)).
  discriminate.
Defined.

(** X2. Whatever the network does and whatever the conversation
    holds, a call that has appended its two messages changes the
    messages only by updating those that carry its assistant id, all in
    the same way and without changing their id, role or timestamp; it
    leaves the input as it is, only adds to the console and to the toasts,
    and ends with the component no longer loading. *)
Theorem call_touches_only_its_turn
    (JSON_parse : string -> completion json)
    (c : Call) (lo : Locals) (st : CodeChat) :
  let st' := settle JSON_parse c lo st in
  loading st' = false
  /\ input st' = input st
  /\ length (messages st') = length (messages st)
  /\ map id (messages st') = map id (messages st)
  /\ map role (messages st') = map role (messages st)
  /\ (exists logs, console st' = (console st ++ logs)%list)
  /\ (exists shown, toasts st' = (toasts st ++ shown)%list)
  /\ (exists f,
         keeps_identity f
         /\ messages st'
            = update_by_id (assistantLoadingMessage_id lo) f (messages st)).
Proof.
  intros st'. subst st'.
  destruct (settle_touches JSON_parse c lo st)
    as (L & f & logs & shown & keeps & M & I & C & T).
  rewrite L, I, M, C, T.
  assert (on_each : forall (A : Type) (p : ChatMessageType -> A),
             (forall m, p (f m) = p m) ->
             map p (update_by_id (assistantLoadingMessage_id lo) f (messages st))
             = map p (messages st)).
  { intros A p same. unfold update_by_id. rewrite map_map. apply map_ext.
    intros m. now destruct (String.eqb (id m) _). }
  split; [reflexivity |]. split; [reflexivity |].
  split; [apply update_by_id_length |].
  split; [apply on_each; intros m; now destruct (keeps m) |].
  split; [apply on_each; intros m; now destruct (keeps m) as (_ & R & _) |].
  split; [now exists logs |]. split; [now exists shown |].
  now exists f.
Qed.

(** X3. When the streaming request itself fails (rejected [fetch] or a
    status outside 200..299) the service hands back its fallback object,
    on which the component calls [getReader]: the assistant message ends
    with the apology followed by the resulting type error's message, not
    by the request's error, which is only written to the console; one
    toast is shown and the follow-up query is not looked at. *)
Theorem failed_stream_request_shows_the_type_error
    (JSON_parse : string -> completion json)
    (c : Call) (lo : Locals) (st : CodeChat) (e : thrown) :
  stream_failure (stream_net c) = Some e ->
  let st' := settle JSON_parse c lo st in
  messages st'
  = update_by_id (assistantLoadingMessage_id lo)
      (with_content (failure_text not_a_stream)) (messages st)
  /\ console st'
     = (console st ++ [Log "Error querying code:" e;
                       Log "Error querying code:" not_a_stream])%list
  /\ toasts st'
     = (toasts st ++ [{| title := "Query Error";
                         description := message_of not_a_stream;
                         variant := "destructive" |}])%list
  /\ loading st' = false
  /\ input st' = input st.
Proof.
  intros failed st'. subst st'. unfold settle, try_block.
  rewrite (streaming_request_failed _ _ _ failed). cbn.
  rewrite <- app_assoc. repeat split.
Qed.

(** X3 on a backend that answers 500. *)
Lemma failed_stream_request_at_status_500 :
  let c :=
    {| uuid_user := "user-1"; uuid_assistant := "assistant-1";
       date_user := 1; date_assistant := 1;
       stream_net := Resolved {| status := 500;
                                 json_body := Throw (ErrorObj "no body");
                                 body := None |};
       followup_net := files_answer ["src/main.ts"] |} in
  let st' := settle JsonText.parse c (fst (started 1 "hi"))
               (snd (started 1 "hi")) in
  map content (messages st')
  = ["hi"; "Sorry, I couldn't process your request. stream.getReader is not a function"]
  /\ console st'
     = [Log "Error querying code:" (ErrorObj "HTTP error 500");
        Log "Error querying code:" not_a_stream].
Proof.
  intros c st'.
  destruct (failed_stream_request_shows_the_type_error JsonText.parse c
              (fst (started 1 "hi")) (snd (started 1 "hi"))
              (ErrorObj "HTTP error 500") eq_refl) as (M & C & _).
  subst st'. split; [| exact C].
  rewrite M. reflexivity.
Defined.

(** X4. When the stream has been read to its end and the follow-up
    request fails (rejected, status outside 200..299, unreadable body),
    or is answered with [success] false or without [relevant_files], the
    failure is swallowed: messages and toasts are as the stream left them,
    only the service's console entry is added, and the component is no
    longer loading. *)
Theorem failed_follow_up_is_swallowed
    (JSON_parse : string -> completion json)
    (c : Call) (lo : Locals) (st : CodeChat)
    (r : Response (option LLMResponse)) (stream : ReadableStream) :
  stream_net c = Resolved r ->
  ok r = true ->
  body r = Some stream ->
  ending stream = Done ->
  (match attempt (followup_net c) with
   | inl _ => True
   | inr None => False
   | inr (Some answer) =>
       success answer = false \/ relevant_files answer = None
   end) ->
  let after_stream := snd (read_loop JSON_parse (reads stream) lo st) in
  let st' := settle JSON_parse c lo st in
  messages st' = messages after_stream
  /\ toasts st' = toasts after_stream
  /\ console st'
     = (console after_stream
        ++ match attempt (followup_net c) with
           | inl e => [Log "Error querying code:" e]
           | inr _ => []
           end)%list
  /\ loading st' = false.
Proof.
  intros net fine has_body ends answered after_stream st'.
  subst after_stream st'.
  rewrite (settle_streamed JSON_parse c lo st r stream net fine has_body).
  destruct (locals_after_reads JSON_parse (reads stream) lo st) as (_ & Q).
  destruct (read_loop JSON_parse (reads stream) lo st) as [lo' st1].
  cbn [fst snd] in *. rewrite ends. unfold follow_up.
  destruct (attempt (followup_net c)) as [e | [answer |]] eqn:A;
    [| | contradiction].
  - rewrite (buffered_request_failed _ _ _ A). cbn. repeat split.
  - rewrite (buffered_request_answered _ _ _ A).
    destruct answered as [no | none].
    + rewrite no. cbn. rewrite app_nil_r. repeat split.
    + rewrite none. destruct (success answer); cbn; rewrite app_nil_r;
        repeat split.
Qed.

(** X4 on a follow-up that cannot be reached. *)
Lemma failed_follow_up_after_hello :
  let c :=
    {| uuid_user := "user-1"; uuid_assistant := "assistant-1";
       date_user := 1; date_assistant := 1;
       stream_net := stream_of hello_reads Done;
       followup_net := Rejected (ErrorObj "Failed to fetch") |} in
  let st' := settle JsonText.parse c (fst (started 1 "hi"))
               (snd (started 1 "hi")) in
  map content (messages st') = ["hi"; "Hello"]
  /\ toasts st' = []
  /\ loading st' = false.
Proof.
  intros c st'.
  destruct (failed_follow_up_is_swallowed JsonText.parse c
              (fst (started 1 "hi")) (snd (started 1 "hi"))
              _ _ eq_refl eq_refl eq_refl eq_refl I) as (M & T & _ & L).
  subst st'. rewrite M, T, L. repeat split.
Defined.

(** X5. When the stream has been read to its end and the follow-up is
    answered with [success] and a list of [relevant_files], that list
    becomes the [relevantFiles] of the messages carrying the call's
    assistant id, replacing what was there; content, [isLoading] and all
    other messages are as the stream left them, and nothing is shown or
    logged. *)
Theorem follow_up_sets_the_relevant_files
    (JSON_parse : string -> completion json)
    (c : Call) (lo : Locals) (st : CodeChat)
    (r : Response (option LLMResponse)) (stream : ReadableStream)
    (answer : LLMResponse) (files : list string) :
  stream_net c = Resolved r ->
  ok r = true ->
  body r = Some stream ->
  ending stream = Done ->
  attempt (followup_net c) = inr (Some answer) ->
  success answer = true ->
  relevant_files answer = Some files ->
  let after_stream := snd (read_loop JSON_parse (reads stream) lo st) in
  let st' := settle JSON_parse c lo st in
  messages st'
  = update_by_id (assistantLoadingMessage_id lo) (with_relevantFiles files)
      (messages after_stream)
  /\ map content (messages st') = map content (messages after_stream)
  /\ map isLoading (messages st') = map isLoading (messages after_stream)
  /\ toasts st' = toasts after_stream
  /\ console st' = console after_stream
  /\ loading st' = false.
Proof.
  intros net fine has_body ends answered yes listed after_stream st'.
  subst after_stream st'.
  rewrite (settle_streamed JSON_parse c lo st r stream net fine has_body).
  destruct (locals_after_reads JSON_parse (reads stream) lo st) as (A & _).
  destruct (read_loop JSON_parse (reads stream) lo st) as [lo' st1].
  cbn [fst snd] in *. rewrite ends. unfold follow_up.
  rewrite (buffered_request_answered _ _ _ answered), yes, listed, A.
  cbn. rewrite app_nil_r.
  assert (on_each : forall (T : Type) (p : ChatMessageType -> T),
             (forall m, p (with_relevantFiles files m) = p m) ->
             map p (update_by_id (assistantLoadingMessage_id lo)
                      (with_relevantFiles files) (messages st1))
             = map p (messages st1)).
  { intros T p same. unfold update_by_id. rewrite map_map. apply map_ext.
    intros m. now destruct (String.eqb (id m) _). }
  repeat split; apply on_each; reflexivity.
Qed.

(** X5 on the three [Hello] records. *)
Lemma follow_up_sets_the_relevant_files_after_hello :
  let st' := settle JsonText.parse (call 1 hello_reads Done)
               (fst (started 1 "hi")) (snd (started 1 "hi")) in
  map relevantFiles (messages st') = [None; Some ["src/main.ts"]]
  /\ map content (messages st') = ["hi"; "Hello"].
Proof.
  intros st'.
  destruct (follow_up_sets_the_relevant_files JsonText.parse
              (call 1 hello_reads Done)
              (fst (started 1 "hi")) (snd (started 1 "hi"))
              _ _ _ ["src/main.ts"] eq_refl eq_refl eq_refl eq_refl eq_refl
              eq_refl eq_refl) as (M & C & _).
  subst st'. split; [rewrite M | rewrite C]; reflexivity.
Defined.

(** X6. When the stream has been read to its end and the follow-up is
    answered with a body that is [null] or a primitive, the call fails
    after the fact: the text that was streamed into the assistant message
    is replaced by the apology with [Invalid response format], and a
    toast says so. *)
Theorem malformed_follow_up_replaces_the_answer
    (JSON_parse : string -> completion json)
    (c : Call) (lo : Locals) (st : CodeChat)
    (r : Response (option LLMResponse)) (stream : ReadableStream) :
  stream_net c = Resolved r ->
  ok r = true ->
  body r = Some stream ->
  ending stream = Done ->
  attempt (followup_net c) = inr None ->
  let st' := settle JSON_parse c lo st in
  messages st'
  = update_by_id (assistantLoadingMessage_id lo)
      (with_content
         "Sorry, I couldn't process your request. Invalid response format")
      (messages st)
  /\ toasts st'
     = (toasts st ++ [{| title := "Query Error";
                         description := "Invalid response format";
                         variant := "destructive" |}])%list
  /\ loading st' = false.
Proof.
  intros net fine has_body ends answered st'. subst st'.
  rewrite (settle_streamed JSON_parse c lo st r stream net fine has_body).
  pose proof (messages_after_reads JSON_parse (reads stream) lo st) as M.
  destruct (on_lines_closed_form JSON_parse
              (flat_map (fun v => split v blank_line) (reads stream)) lo st)
    as (_ & _ & _ & _ & _ & _ & T & _).
  rewrite <- read_loop_lines in T.
  destruct (read_loop JSON_parse (reads stream) lo st) as [lo' st1].
  cbn [fst snd] in *. rewrite ends. unfold follow_up.
  rewrite (buffered_request_answered _ _ _ answered).
  cbn. rewrite T, M. repeat split.
  destruct (fragments JSON_parse _); [reflexivity |].
  apply with_content_twice.
Qed.

(** X6 on the three [Hello] records followed by a [null] body. *)
Lemma malformed_follow_up_after_hello :
  let c :=
    {| uuid_user := "user-1"; uuid_assistant := "assistant-1";
       date_user := 1; date_assistant := 1;
       stream_net := stream_of hello_reads Done;
       followup_net := Resolved {| status := 200; json_body := Return None;
                                   body := None |} |} in
  let st' := settle JsonText.parse c (fst (started 1 "hi"))
               (snd (started 1 "hi")) in
  map content (messages st')
  = ["hi"; "Sorry, I couldn't process your request. Invalid response format"].
Proof.
  intros c st'.
  destruct (malformed_follow_up_replaces_the_answer JsonText.parse c
              (fst (started 1 "hi")) (snd (started 1 "hi"))
              _ _ eq_refl eq_refl eq_refl eq_refl eq_refl) as (M & _).
  subst st'. rewrite M. reflexivity.
Defined.

End StreamCalls.

(** ** Runs of the event source component *)
Module EventRunFacts.
Import JS EventChat EventRuns TextFacts Scenarios.

(** *** Closed sources *)

Lemma close_nth_length (k : nat) (l : list bool) :
  length (close_nth k l) = length l.
Proof.
  revert k. induction l as [| b l IH]; intros [| k]; cbn; auto.
Qed.

Lemma close_nth_closes (k : nat) (l : list bool) :
  nth k (close_nth k l) false = false.
Proof.
  revert k. induction l as [| b l IH]; intros [| k]; cbn; auto.
Qed.

Lemma close_nth_keeps_closed (j k : nat) (l : list bool) :
  nth k l false = false -> nth k (close_nth j l) false = false.
Proof.
  revert j k. induction l as [| b l IH]; intros [| j] [| k]; cbn; auto.
Qed.

(** No event reopens a source, and the list of sources only grows. *)
Lemma step_keeps_closed (JSON_parse : string -> completion json)
    (k : nat) (st : CodeChat) (ev : Event) :
  k < length (sources st) ->
  is_open k st = false ->
  k < length (sources (step JSON_parse st ev))
  /\ is_open k (step JSON_parse st ev) = false.
Proof.
  unfold is_open. intros created closed.
  destruct ev as [text | clk | j event_data | j error | j]; cbn [step].
  - unfold onChange. destruct (loading st); cbn; auto.
  - unfold handleSendMessage.
    destruct (trim_is_empty (input st) || loading st); cbn; auto.
    rewrite length_app, app_nth1 by exact created. cbn. split; [lia | auto].
  - unfold onmessage, is_open.
    destruct (nth j (sources st) false); auto.
    unfold message_body.
    destruct (JSON_parse event_data) as [data | e]; cbn; auto.
    destruct (get data "relevant_files") as [files | e]; cbn; auto.
    destruct (truthy files); cbn; auto.
    destruct (get data "chunk") as [chunk | e]; cbn; auto.
    destruct (truthy chunk); cbn; auto.
    destruct (get data "error") as [err | e]; cbn; auto.
    destruct (truthy err); cbn; auto.
    destruct (get data "done") as [done | e]; cbn; auto.
    destruct (truthy done); cbn; auto.
  - unfold onerror, is_open.
    destruct (nth j (sources st) false); cbn; auto.
    rewrite close_nth_length. split; [exact created |].
    now apply close_nth_keeps_closed.
  - unfold on_done_event, is_open.
    destruct (nth j (sources st) false); cbn; auto.
    rewrite close_nth_length. split; [exact created |].
    now apply close_nth_keeps_closed.
Qed.

Lemma step_from_closed (JSON_parse : string -> completion json)
    (k : nat) (st : CodeChat) (ev : Event) :
  is_open k st = false ->
  from_source k ev = true ->
  step JSON_parse st ev = st.
Proof.
  intros closed from.
  destruct ev as [text | clk | j event_data | j error | j]; cbn in from;
    try discriminate; apply Nat.eqb_eq in from; subst j; cbn [step].
  - unfold onmessage. now rewrite closed.
  - unfold onerror. now rewrite closed.
  - unfold on_done_event. now rewrite closed.
Qed.


(** Both ways of closing do close. *)
Lemma handlers_close_their_source (JSON_parse : string -> completion json)
    (k : nat) (error : thrown) (st : CodeChat) :
  k < length (sources st) ->
  (k < length (sources (onerror k error st))
   /\ is_open k (onerror k error st) = false)
  /\ (k < length (sources (on_done_event k st))
      /\ is_open k (on_done_event k st) = false).
Proof.
  intros created. unfold onerror, on_done_event, is_open.
  destruct (nth k (sources st) false) eqn:open; cbn;
    rewrite ?close_nth_length, ?close_nth_closes; auto.
Qed.


(** *** The history only grows *)

Lemma grows_refl (m : ChatMessage) : grows m m.
Proof.
  repeat split. exists "". now rewrite append_nil_r.
Qed.

Lemma grows_trans (a b c : ChatMessage) : grows a b -> grows b c -> grows a c.
Proof.
  intros (I & T & D & R & more & C) (I' & T' & D' & R' & more' & C').
  repeat split; try congruence.
  exists (more ++ more'). now rewrite C', C, append_assoc.
Qed.

Lemma all_grow_refl (ms : list ChatMessage) : Forall2 grows ms ms.
Proof. induction ms; constructor; auto using grows_refl. Qed.

Lemma all_grow_trans (a : list ChatMessage) :
  forall b c, Forall2 grows a b -> Forall2 grows b c -> Forall2 grows a c.
Proof.
  induction a as [| x a IH]; intros b c ab bc.
  - inversion ab; subst. inversion bc; subst. constructor.
  - inversion ab as [| ? y ? b' xy ab']; subst.
    inversion bc as [| ? z ? c' yz bc']; subst.
    constructor; [eapply grows_trans; eassumption | eapply IH; eassumption].
Qed.

Lemma history_grows_refl (ms : list ChatMessage) : history_grows ms ms.
Proof.
  exists ms, []. rewrite app_nil_r. split; [reflexivity | apply all_grow_refl].
Qed.

Lemma history_grows_trans (a b c : list ChatMessage) :
  history_grows a b -> history_grows b c -> history_grows a c.
Proof.
  intros (kept & added & -> & ak) (kept' & added' & -> & bk).
  apply Forall2_app_inv_l in bk as (k1 & k2 & grown1 & grown2 & ->).
  exists k1, (k2 ++ added')%list. rewrite app_assoc.
  split; [reflexivity |]. eapply all_grow_trans; eassumption.
Qed.

Lemma history_grows_app (ms added : list ChatMessage) :
  history_grows ms (ms ++ added).
Proof. exists ms, added. split; [reflexivity | apply all_grow_refl]. Qed.

Lemma append_to_last_grows (text : string) (prev : list ChatMessage) :
  history_grows prev (append_to_last text prev).
Proof.
  unfold append_to_last.
  destruct (rev prev) as [| lastMessage earlier] eqn:R;
    [apply history_grows_refl |].
  destruct (type lastMessage) eqn:T; [apply history_grows_refl |].
  assert (P : prev = (rev earlier ++ [lastMessage])%list).
  { rewrite <- (rev_involutive prev), R. reflexivity. }
  rewrite P at 1.
  eexists _, []. rewrite app_nil_r. split; [reflexivity |].
  apply Forall2_app; [apply all_grow_refl |].
  constructor; [| constructor].
  repeat split; cbn; auto. now exists text.
Qed.

Lemma step_history_grows (JSON_parse : string -> completion json)
    (st : CodeChat) (ev : Event) :
  history_grows (messages st) (messages (step JSON_parse st ev)).
Proof.
  destruct ev as [text | clk | j event_data | j error | j]; cbn [step].
  - unfold onChange. destruct (loading st); apply history_grows_refl.
  - unfold handleSendMessage.
    destruct (trim_is_empty (input st) || loading st);
      [apply history_grows_refl |].
    cbn. rewrite <- app_assoc. apply history_grows_app.
  - unfold onmessage. destruct (is_open j st); [| apply history_grows_refl].
    unfold message_body.
    destruct (JSON_parse event_data) as [data | e];
      [| apply history_grows_refl].
    destruct (get data "relevant_files") as [files | e];
      [| apply history_grows_refl].
    destruct (truthy files); [apply history_grows_refl |].
    destruct (get data "chunk") as [chunk | e]; [| apply history_grows_refl].
    destruct (truthy chunk); [apply append_to_last_grows |].
    destruct (get data "error") as [err | e]; [| apply history_grows_refl].
    destruct (truthy err); [apply history_grows_refl |].
    destruct (get data "done") as [done | e]; [| apply history_grows_refl].
    destruct (truthy done); apply history_grows_refl.
  - unfold onerror. destruct (is_open j st); apply history_grows_refl.
  - unfold on_done_event. destruct (is_open j st); apply history_grows_refl.
Qed.

(** X8. In the event source component the history only grows: after
    any run of events every message that was there is still there, at the
    same place, with the same id, type, timestamp and relevant files, and
    with a content that starts with the content it had; messages are
    only ever added at the end. *)
Theorem history_only_grows
    (JSON_parse : string -> completion json)
    (evs : list Event) (st : CodeChat) :
  history_grows (messages st) (messages (run JSON_parse evs st))
  /\ length (messages st) <= length (messages (run JSON_parse evs st))
  /\ (forall k m,
         nth_error (messages st) k = Some m ->
         exists m',
           nth_error (messages (run JSON_parse evs st)) k = Some m'
           /\ grows m m').
Proof.
  assert (G : history_grows (messages st) (messages (run JSON_parse evs st))).
  { unfold run. revert st.
    induction evs as [| ev rest IH]; intros st; cbn.
    - apply history_grows_refl.
    - eapply history_grows_trans; [apply step_history_grows | apply IH]. }
  split; [exact G |].
  destruct G as (kept & added & -> & each).
  pose proof (Forall2_length each) as same.
  split; [rewrite length_app; lia |].
  intros k m at_k.
  assert (k < length kept)
    by (rewrite <- same; apply nth_error_Some; congruence).
  rewrite nth_error_app1 by assumption.
  clear same added H. revert k at_k.
  induction each as [| x y ms ks xy _ IH]; intros [| k] at_k;
    cbn in *; try discriminate.
  - injection at_k as <-. now exists y.
  - now apply IH.
Qed.

(** *** Message ids *)

Lemma to_uint_nonnil (n : nat) : Nat.to_uint n <> Decimal.Nil.
Proof.
  rewrite <- (DecimalNat.Unsigned.of_to n) at 1.
  rewrite DecimalNat.Unsigned.to_of. apply DecimalFacts.unorm_nonnil.
Qed.

(** Distinct numbers print differently. *)
Lemma nat_to_string_inj (n m : nat) :
  nat_to_string n = nat_to_string m -> n = m.
Proof.
  unfold nat_to_string. intros same.
  apply DecimalNat.Unsigned.to_uint_inj.
  apply (f_equal NilZero.uint_of_string) in same.
  rewrite !NilZero.usu in same by apply to_uint_nonnil.
  now injection same.
Qed.

(** X9. Message ids are clock readings.  If the ids in the conversation
    are distinct and come from readings up to [bound], a send whose
    readings are later than [bound], the second not before the first,
    leaves the ids distinct, now from readings up to the second reading
    plus one. *)
Theorem send_keeps_ids_distinct (clk : Clock) (st : CodeChat) (bound : nat) :
  NoDup (map id (messages st)) ->
  stamped bound (messages st) ->
  bound < now_user clk ->
  now_user clk <= now_assistant clk ->
  NoDup (map id (messages (handleSendMessage clk st)))
  /\ stamped (now_assistant clk + 1) (messages (handleSendMessage clk st)).
Proof.
  intros distinct old later ordered. unfold handleSendMessage.
  destruct (trim_is_empty (input st) || loading st).
  - split; [exact distinct |].
    intros m inside. destruct (old m inside) as (n & I & B).
    exists n. split; [exact I | lia].
  - cbn. rewrite <- app_assoc. cbn. split.
    + rewrite map_app. cbn.
      assert (unseen : forall n, bound < n ->
                 ~ In (nat_to_string n) (map id (messages st))).
      { intros n late inside. apply in_map_iff in inside as (m & I & M).
        destruct (old m M) as (k & I' & B).
        rewrite I' in I. apply nat_to_string_inj in I. lia. }
      apply NoDup_app; [exact distinct | |].
      * constructor; [| constructor; [intros [] | constructor]].
        intros [same | []]. apply nat_to_string_inj in same. lia.
      * intros x inside [<- | [<- | []]]; revert inside; apply unseen; lia.
    + intros m inside. apply in_app_or in inside as [inside | inside].
      * destruct (old m inside) as (n & I & B).
        exists n. split; [exact I | lia].
      * destruct inside as [<- | [<- | []]]; cbn.
        -- exists (now_user clk). split; [reflexivity | lia].
        -- exists (now_assistant clk + 1). split; [reflexivity | lia].
Qed.

(** X9 on the first send of a conversation. *)
Lemma send_keeps_ids_distinct_at_first_send :
  NoDup (map id (messages (handleSendMessage (clock 100)
                             (onChange "first" initial))))
  /\ stamped 101 (messages (handleSendMessage (clock 100)
                              (onChange "first" initial))).
Proof.
  refine (send_keeps_ids_distinct (clock 100) (onChange "first" initial) 0
            (NoDup_nil _) _ _ (le_n 100)).
  - intros m [].
  - apply Nat.lt_0_succ.
Defined.

End EventRunFacts.

(** ** Runs of the poller *)
Module PollerRunFacts.
Import JS Service Poller PollerRuns PollerFacts.

(** The service's two calls with their console output. *)
Lemma status_call_logged (net : fetch_outcome IndexingStatus) :
  getIndexingStatus net
  = match attempt net with
    | inl e => ([Log "Error getting indexing status:" e],
                Return (status_fallback e))
    | inr s => ([], Return s)
    end.
Proof.
  unfold getIndexingStatus, attempt. destruct net as [e | r]; cbn;
    [reflexivity |].
  destruct (ok r); cbn; [| reflexivity]. now destruct (json_body r).
Qed.

Lemma tree_call_logged (net : fetch_outcome FileStructure) :
  getFileStructure net
  = match attempt net with
    | inl e => ([Log "Error getting file structure:" e],
                Return (structure_fallback e))
    | inr s => ([], Return s)
    end.
Proof.
  unfold getFileStructure, attempt. destruct net as [e | r]; cbn;
    [reflexivity |].
  destruct (ok r); cbn; [| reflexivity]. now destruct (json_body r).
Qed.

Lemma failed_status_response (net : Answers) :
  status_fails net = true ->
  exists e,
    attempt (status_net net) = inl e
    /\ poll_response net = status_fallback e
    /\ indexing_complete (poll_response net) = false.
Proof.
  unfold status_fails, poll_response. rewrite status_call_logged.
  destruct (attempt (status_net net)) as [e | s]; [| discriminate].
  intros _. exists e. repeat split.
Qed.

(** X10. A status request that fails does not stop the poller and is
    not hidden either: the service's fallback status (not indexing,
    progress 0, the error's message as [error]) is published like any
    other, and the next tick polls again, for as long as requests fail;
    no file-structure request is made and the tab is not changed. *)
Theorem failed_polls_are_published_and_retried
    (ticks : list Answers) (st : Index) :
  pollInterval st = true ->
  forallb status_fails ticks = true ->
  let st' := run_poller ticks st in
  pollInterval st' = true
  /\ status_requests st' = status_requests st + length ticks
  /\ tree_requests st' = tree_requests st
  /\ selectedTab st' = selectedTab st
  /\ published st' = (published st ++ map poll_response ticks)%list
  /\ Forall (fun s => is_indexing s = false /\ progress s = 0%Z
                      /\ error s <> None)
       (map poll_response ticks).
Proof.
  intros live failing st'. subst st'.
  assert (pending : forallb (fun n => negb (indexing_complete (poll_response n)))
                      ticks = true).
  { rewrite forallb_forall in *. intros net inside.
    destruct (failed_status_response net (failing net inside)) as (e & _ & _ & C).
    now rewrite C. }
  destruct (run_pending ticks st live pending) as (L & R & T & S' & P).
  repeat split; try assumption.
  apply Forall_forall. intros s inside.
  apply in_map_iff in inside as (net & <- & inside).
  rewrite forallb_forall in failing.
  destruct (failed_status_response net (failing net inside)) as (e & _ & -> & _).
  repeat split. discriminate.
Qed.

(** X10 on a backend that cannot be reached for two ticks. *)
Lemma failed_polls_while_unreachable :
  let st' := run_poller [tick_unreachable; tick_unreachable]
               (handleSourceLoaded initial) in
  pollInterval st' = true
  /\ status_requests st' = 2
  /\ published st'
     = [status_fallback (ErrorObj "Failed to fetch");
        status_fallback (ErrorObj "Failed to fetch")].
Proof.
  destruct (failed_polls_are_published_and_retried
              [tick_unreachable; tick_unreachable]
              (handleSourceLoaded initial) eq_refl eq_refl)
    as (L & R & _ & _ & P & _).
  repeat split; assumption.
Defined.

(** X11. On the answer that reports completion the file structure kept
    by the page is whatever [getFileStructure] returned: the backend's
    structure, or the service's fallback (no success, empty root, the
    error's message) when that request fails; the interval is cleared and
    the chat tab is selected in both cases, and the displayed status is
    the completed one. *)
Theorem completion_keeps_the_structure_it_got (net : Answers) (st : Index) :
  indexing_complete (poll_response net) = true ->
  let st' := poll_callback net st in
  fileStructure st'
  = match attempt (tree_net net) with
    | inl e => structure_fallback e
    | inr structure => structure
    end
  /\ selectedTab st' = TabChat
  /\ pollInterval st' = false
  /\ indexingStatus st' = poll_response net
  /\ tree_requests st' = S (tree_requests st).
Proof.
  intros complete st'. subst st'.
  unfold poll_callback, on_status_answer.
  destruct (status_call net) as [logs ->]. rewrite complete.
  rewrite tree_call_logged.
  destruct (attempt (tree_net net)); cbn; repeat split.
Qed.

(** X11 when the structure cannot be fetched. *)
Lemma completion_without_structure :
  let net := {| status_net := status_net tick_100;
                tree_net := Rejected (ErrorObj "Failed to fetch") |} in
  let st' := poll_callback net (handleSourceLoaded initial) in
  fs_success (fileStructure st') = false
  /\ selectedTab st' = TabChat
  /\ pollInterval st' = false.
Proof.
  intros net st'.
  destruct (completion_keeps_the_structure_it_got net
              (handleSourceLoaded initial) eq_refl) as (F & T & L & _).
  subst st'. rewrite F, T, L. repeat split.
Defined.

Lemma answer_console (net : Answers) (st : Index) :
  exists logs,
    console (on_status_answer net st) = (console st ++ logs)%list
    /\ forallb from_service logs = true.
Proof.
  unfold on_status_answer. rewrite status_call_logged, tree_call_logged.
  destruct (attempt (status_net net)) as [e | s]; cbn.
  - exists [Log "Error getting indexing status:" e]. now split.
  - destruct (indexing_complete s); cbn.
    + destruct (attempt (tree_net net)) as [e | structure]; cbn.
      * exists [Log "Error getting file structure:" e].
        rewrite <- app_assoc. now split.
      * exists []. now rewrite <- app_assoc.
    + exists []. now split.
Qed.


Lemma answer_shows_status (net : Answers) (st : Index) :
  indexingStatus (on_status_answer net st) = poll_response net.
Proof.
  unfold on_status_answer. destruct (status_call net) as [logs ->].
  destruct (indexing_complete (poll_response net)); [| reflexivity].
  now destruct (getFileStructure (tree_net net)) as [logs' [s | e]].
Qed.

Lemma last_of_nonempty {A : Type} (x : A) (l : list A) (d d' : A) :
  last (x :: l) d = last (x :: l) d'.
Proof.
  revert x. induction l as [| y l IH]; intros x; [reflexivity |].
  change (last (y :: l) d = last (y :: l) d'). apply IH.
Qed.

(** X13. The status on display is always the latest answer: after any
    run of ticks and answers it is the status of the last answer that
    arrived, or the one shown before if none did, also when answers
    arrive after the poller has stopped. *)
Theorem displayed_status_is_the_latest_answer
    (evs : list PollEvent) (st : Index) :
  indexingStatus (run_events evs st)
  = last (answered evs) (indexingStatus st)
  /\ published (run_events evs st) = (published st ++ answered evs)%list.
Proof.
  split; [| apply events_published].
  unfold run_events. revert st.
  induction evs as [| [| net] rest IH]; intros st; cbn [fold_left answered].
  - reflexivity.
  - rewrite IH. cbn. now destruct (pollInterval st).
  - rewrite IH. cbn [poll_event]. rewrite answer_shows_status.
    destruct (answered rest) as [| s more] eqn:A; [reflexivity |].
    change (last (s :: more) (poll_response net)
            = last (s :: more) (indexingStatus st)).
    apply last_of_nonempty.
Qed.

(** X14. The effect's cleanup stops the poller for good: it is
    idempotent, after it no tick issues a status request however many
    are offered, and the tick by tick run changes nothing at all. *)
Theorem cleanup_stops_the_poller
    (ticks : list Answers) (evs : list PollEvent) (st : Index) :
  cleanup (cleanup st) = cleanup st
  /\ run_poller ticks (cleanup st) = cleanup st
  /\ status_requests (run_events evs (cleanup st)) = status_requests st
  /\ pollInterval (run_events evs (cleanup st)) = false.
Proof.
  split; [reflexivity |].
  split; [now apply run_stopped |].
  destruct (events_after_stop evs (cleanup st) eq_refl) as (L & R).
  now split.
Qed.

End PollerRunFacts.

(** ** Sorting *)
Module ArrayFacts.
Import JS Arrays.

Section Sorting.
Context {A : Type}.
Variable compareFn : A -> A -> Z.

(** [x] may stand before [y]. *)
Let before (x y : A) : Prop := (compareFn x y <= 0)%Z.

Lemma insert_by_permutation (x : A) (l : list A) :
  Permutation (insert_by compareFn x l) (x :: l).
Proof.
  induction l as [| y rest IH]; cbn; [reflexivity |].
  destruct (compareFn x y <=? 0)%Z; [reflexivity |].
  rewrite IH. apply perm_swap.
Qed.

Lemma sort_by_permutation (l : list A) : Permutation (sort_by compareFn l) l.
Proof.
  induction l as [| x rest IH]; cbn; [reflexivity |].
  rewrite insert_by_permutation. now constructor.
Qed.

Hypothesis total : forall x y, before x y \/ before y x.

Lemma insert_by_sorted (x : A) (l : list A) :
  Sorted before l -> Sorted before (insert_by compareFn x l).
Proof.
  induction l as [| y rest IH]; intros sorted; cbn.
  - repeat constructor.
  - destruct (compareFn x y <=? 0)%Z eqn:le.
    + constructor; [exact sorted |]. constructor.
      now apply Z.leb_le in le.
    + apply Z.leb_gt in le.
      inversion sorted as [| ? ? sorted_rest head]; subst.
      constructor; [now apply IH |].
      assert (yx : before y x)
        by (destruct (total x y) as [xy | yx]; [unfold before in xy; lia | exact yx]).
      destruct rest as [| z rest']; cbn.
      * now constructor.
      * destruct (compareFn x z <=? 0)%Z; constructor; auto.
        now inversion head.
Qed.

Lemma sort_by_sorted (l : list A) : Sorted before (sort_by compareFn l).
Proof.
  induction l as [| x rest IH]; cbn; [constructor |].
  now apply insert_by_sorted.
Qed.

End Sorting.

(** In a strongly sorted list every element of a front part is related
    to every element of the rest. *)
Lemma strongly_sorted_parts {A : Type} (R : A -> A -> Prop)
    (front back : list A) :
  StronglySorted R (front ++ back) ->
  forall x y, In x front -> In y back -> R x y.
Proof.
  induction front as [| z front IH]; intros sorted x y inx iny;
    [contradiction |].
  cbn in sorted. inversion sorted as [| ? ? sorted' all]; subst.
  destruct inx as [<- | inx].
  - rewrite Forall_forall in all. apply all, in_or_app. now right.
  - now apply IH.
Qed.

Lemma in_front {A : Type} (n : nat) (l : list A) (x : A) :
  In x (firstn n l) -> In x l.
Proof.
  intros inside. rewrite <- (firstn_skipn n l). apply in_or_app. now left.
Qed.

Lemma strongly_sorted_front {A : Type} (R : A -> A -> Prop)
    (n : nat) (l : list A) :
  StronglySorted R l -> StronglySorted R (firstn n l).
Proof.
  intros sorted. revert n.
  induction sorted as [| x l sorted IH all]; intros [| n]; cbn;
    try constructor; auto.
  rewrite Forall_forall in *. intros y inside.
  apply all. eapply in_front; eassumption.
Qed.

End ArrayFacts.

(** ** Presentation *)
Module ViewFacts.
Import JS Service Arrays Views ArrayFacts TextFacts.

(** *** The progress card's languages *)

Lemma by_falling_count_total (a b : string * Z) :
  (snd b - snd a <= 0)%Z \/ (snd a - snd b <= 0)%Z.
Proof. lia. Qed.

Lemma sorted_by_falling_count (l : list (string * Z)) :
  StronglySorted (fun a b => (snd b <= snd a)%Z)
    (sort_by (fun a b => (snd b - snd a)%Z) l).
Proof.
  apply Sorted_StronglySorted.
  - intros a b c ab bc. lia.
  - pose proof (sort_by_sorted (fun a b : string * Z => (snd b - snd a)%Z)
                  by_falling_count_total l) as sorted.
    eapply Sorted_ind with (P := Sorted (fun a b => (snd b <= snd a)%Z));
      [constructor | | exact sorted].
    intros a rest _ IH head. constructor; [exact IH |].
    destruct head; constructor. lia.
Qed.


(** *** The order of the explorer's entries *)

Lemma folders_first (before : string * FileTreeNode -> string * FileTreeNode -> Prop)
    (l : list (string * FileTreeNode)) :
  (forall a b, before a b ->
               is_directory (snd a) = false -> is_directory (snd b) = false) ->
  Sorted before l ->
  exists folders files,
    l = (folders ++ files)%list
    /\ Forall (fun item => is_directory (snd item) = true) folders
    /\ Forall (fun item => is_directory (snd item) = false) files.
Proof.
  intros keeps sorted.
  induction sorted as [| x rest sorted (folders & files & -> & F & G) head].
  - exists [], []. repeat split; constructor.
  - destruct (is_directory (snd x)) eqn:kind.
    + exists (x :: folders), files. repeat split; auto.
    + exists [], (x :: folders ++ files)%list. repeat split; auto.
      constructor; [exact kind |].
      destruct folders as [| y folders']; [exact G |].
      inversion head as [| ? ? xy]; subst.
      pose proof (keeps x y xy kind) as Hy.
      inversion F; subst. congruence.
Qed.

Lemma files_stay_behind (localeCompare : string -> string -> Z)
    (a b : string * FileTreeNode) :
  (compare_items localeCompare a b <= 0)%Z ->
  is_directory (snd a) = false -> is_directory (snd b) = false.
Proof.
  unfold compare_items. intros ab file. rewrite file in ab.
  destruct (is_directory (snd b)); [cbn in ab; lia | reflexivity].
Qed.

(** X16. The explorer lists a directory's entries folders first: the
    sorted list is a rearrangement of the entries, made of the folders
    followed by the files, and any two neighbours in it are in the order
    of the comparison (for entries of the same kind, the order of
    [localeCompare] on their names), whenever [localeCompare] orders
    every two names one way or the other. *)
Theorem explorer_lists_folders_first
    (localeCompare : string -> string -> Z)
    (children : list (string * FileTreeNode)) :
  (forall a b, (localeCompare a b <= 0)%Z \/ (localeCompare b a <= 0)%Z) ->
  let items := sortedItems localeCompare children in
  Permutation items children
  /\ Sorted (fun a b => (compare_items localeCompare a b <= 0)%Z) items
  /\ exists folders files,
       items = (folders ++ files)%list
       /\ Forall (fun item => is_directory (snd item) = true) folders
       /\ Forall (fun item => is_directory (snd item) = false) files
       /\ Sorted (fun a b => (localeCompare (fst a) (fst b) <= 0)%Z) folders
       /\ Sorted (fun a b => (localeCompare (fst a) (fst b) <= 0)%Z) files.
Proof.
  intros total items. subst items. unfold sortedItems.
  assert (total_items : forall a b,
             (compare_items localeCompare a b <= 0)%Z
             \/ (compare_items localeCompare b a <= 0)%Z).
  { intros a b. unfold compare_items.
    destruct (is_directory (snd a)), (is_directory (snd b)); cbn;
      try apply total; lia. }
  pose proof (sort_by_sorted (compare_items localeCompare) total_items children)
    as sorted.
  split; [apply sort_by_permutation |]. split; [exact sorted |].
  destruct (folders_first _ _ (files_stay_behind localeCompare) sorted)
    as (folders & files & E & F & G).
  exists folders, files. rewrite E in sorted |- *.
  split; [reflexivity |]. split; [exact F |]. split; [exact G |].
  assert (same_kind : forall (kind : bool) (l : list (string * FileTreeNode)),
             Forall (fun item => is_directory (snd item) = kind) l ->
             Sorted (fun a b => (compare_items localeCompare a b <= 0)%Z) l ->
             Sorted (fun a b => (localeCompare (fst a) (fst b) <= 0)%Z) l).
  { intros kind l. induction l as [| x l IH]; intros all s; [constructor |].
    inversion all as [| ? ? kx all']; subst.
    inversion s as [| ? ? s' head]; subst. constructor; [now apply IH |].
    destruct head as [| y l' xy]; constructor.
    inversion all' as [| ? ? ky _]; subst.
    unfold compare_items in xy. rewrite ky in xy.
    now destruct (is_directory (snd x)). }
  split.
  - apply (same_kind true); [exact F |].
    clear - sorted. induction folders as [| x folders IH]; [constructor |].
    cbn in sorted. inversion sorted as [| ? ? s' head]; subst.
    constructor; [now apply IH |].
    destruct folders; [constructor |]. cbn in head. now inversion head; constructor.
  - apply (same_kind false); [exact G |].
    clear - sorted. induction folders as [| x folders IH]; [exact sorted |].
    cbn in sorted. inversion sorted; subst. now apply IH.
Qed.

Lemma by_code_units_total (a b : string) :
  (by_code_units a b <= 0)%Z \/ (by_code_units b a <= 0)%Z.
Proof.
  unfold by_code_units. rewrite (String.compare_antisym a b).
  destruct (String.compare b a); cbn; lia.
Qed.

Lemma explorer_lists_folders_first_by_code_units :
  (forall a b, (by_code_units a b <= 0)%Z \/ (by_code_units b a <= 0)%Z)
  /\ sortedItems by_code_units
       [("main.ts", FileNode "typescript" "main.ts");
        ("src", DirectoryNode []);
        ("README.md", FileNode "markdown" "README.md");
        ("docs", DirectoryNode [])]
     = [("docs", DirectoryNode []);
        ("src", DirectoryNode []);
        ("README.md", FileNode "markdown" "README.md");
        ("main.ts", FileNode "typescript" "main.ts")]
  /\ Permutation
       (sortedItems by_code_units
          [("main.ts", FileNode "typescript" "main.ts");
           ("src", DirectoryNode []);
           ("README.md", FileNode "markdown" "README.md");
           ("docs", DirectoryNode [])])
       [("main.ts", FileNode "typescript" "main.ts");
        ("src", DirectoryNode []);
        ("README.md", FileNode "markdown" "README.md");
        ("docs", DirectoryNode [])].
Proof.
  split; [exact by_code_units_total |]. split; [reflexivity |].
  exact (proj1 (explorer_lists_folders_first by_code_units
                  [("main.ts", FileNode "typescript" "main.ts");
                   ("src", DirectoryNode []);
                   ("README.md", FileNode "markdown" "README.md");
                   ("docs", DirectoryNode [])]
                  by_code_units_total)).
Defined.

(** *** The progress card while the backend cannot be reached *)

(** X24. A status request that fails reaches the progress card as an
    alert: after the poller's callback the card shows the service's
    sentence as its message, the alert icon and the error box with the
    error's message, and neither the spinner nor the check mark.  The
    one exception is an error whose message is empty: the card then
    shows the idle icon and no error box. *)
Theorem failed_poll_shows_the_alert
    (net : Poller.Answers) (st : Poller.Index) (e : thrown) :
  attempt (Poller.status_net net) = inl e ->
  let card := Poller.indexingStatus (Poller.poll_callback net st) in
  message card = "Failed to get indexing status: " ++ message_of e
  /\ icon card
     = (if String.eqb (message_of e) "" then Idle else Alert)
  /\ error_box card
     = (if String.eqb (message_of e) "" then None else Some (message_of e)).
Proof.
  intros failed card. subst card. unfold Poller.poll_callback.
  rewrite PollerRunFacts.answer_shows_status.
  unfold Poller.poll_response.
  rewrite PollerRunFacts.status_call_logged, failed. cbn.
  unfold icon, error_box. cbn.
  now destruct (String.eqb (message_of e) "").
Qed.

Lemma failed_poll_shows_the_alert_when_unreachable :
  attempt (Poller.status_net Poller.tick_unreachable)
  = inl (ErrorObj "Failed to fetch")
  /\ icon (Poller.indexingStatus
             (Poller.poll_callback Poller.tick_unreachable Poller.initial))
     = Alert
  /\ error_box (Poller.indexingStatus
                  (Poller.poll_callback Poller.tick_unreachable Poller.initial))
     = Some "Failed to fetch".
Proof.
  split; [reflexivity |].
  exact (proj2 (failed_poll_shows_the_alert Poller.tick_unreachable
                  Poller.initial (ErrorObj "Failed to fetch") eq_refl)).
Defined.

(** *** The label of a relevant file *)

Lemma pop_last {A : Type} (init : list A) (x : A) :
  pop (init ++ [x])%list = Some x.
Proof.
  induction init as [| y init IH]; [reflexivity |].
  cbn [app pop]. destruct (init ++ [x])%list eqn:shape; [| exact IH].
  now destruct init.
Qed.

Lemma split_at_slashes (file : string) :
  exists init label dir,
    split file "/" = (init ++ [label])%list
    /\ no_slash label = true
    /\ file = dir ++ label
    /\ ((init = [] /\ dir = "")
        \/ (init <> [] /\ exists d, dir = d ++ "/")).
Proof.
  unfold split. induction file as [| c file (init & label & dir & S & N & E & D)].
  - exists [], "", "". repeat split. now left.
  - cbn [split_from startsWith]. destruct (Ascii.eqb "/" c) eqn:is_slash.
    + apply Ascii.eqb_eq in is_slash. subst c. cbn [andb String.length Nat.sub].
      rewrite S. exists ("" :: init)%list, label, (String "/" dir).
      split; [reflexivity |]. split; [exact N |].
      split; [cbn; now rewrite <- E |].
      right. split; [discriminate |].
      destruct D as [(_ & ->) | (_ & d & ->)];
        [now exists "" | now exists (String "/" d)].
    + cbn [andb]. rewrite S.
      destruct D as [(-> & ->) | (filled & d & ->)].
      * exists [], (String c label), "". split; [reflexivity |].
        split.
        { cbn [no_slash]. unfold slash. rewrite Ascii.eqb_sym, is_slash.
          exact N. }
        split; [cbn in E |- *; now rewrite E |]. now left.
      * destruct init as [| h init]; [contradiction |].
        exists (String c h :: init)%list, label, (String c (d ++ "/")).
        split; [reflexivity |]. split; [exact N |].
        split; [cbn; now rewrite <- E |].
        right. split; [discriminate |]. now exists (String c d).
Qed.

(** X17. The label on a relevant-file button is the part of the path
    after its last slash: the path is a directory part, empty or ending
    in a slash, followed by the label, the label has no slash in it, and
    [pop] always finds one (a path that ends in a slash gets the empty
    label). *)
Theorem file_label_is_the_part_after_the_last_slash (file : string) :
  exists dir label,
    file = dir ++ label
    /\ file_label file = Some label
    /\ no_slash label = true
    /\ (dir = "" \/ exists d, dir = d ++ "/").
Proof.
  destruct (split_at_slashes file) as (init & label & dir & S & N & E & D).
  exists dir, label. split; [exact E |].
  split; [unfold file_label; rewrite S; apply pop_last |].
  split; [exact N |].
  destruct D as [(_ & ->) | (_ & d & ->)]; [now left | right; now exists d].
Qed.

End ViewFacts.

(** ** Loading a source *)
Module LoadingFacts.
Import JS Service Loading.

Lemma repository_call_logged (net : fetch_outcome json) :
  loadRepository net
  = match attempt net with
    | inl e => ([Log "Error loading repository:" e],
                Return (load_failure
                          ("Failed to load repository: " ++ message_of e)))
    | inr result => ([], Return result)
    end.
Proof.
  unfold loadRepository, attempt. destruct net as [e | r]; cbn;
    [reflexivity |].
  destruct (ok r); cbn; [| reflexivity]. now destruct (json_body r).
Qed.

Lemma directory_call_logged (net : fetch_outcome json) :
  loadDirectory net
  = match attempt net with
    | inl e => ([Log "Error loading directory:" e],
                Return (load_failure
                          ("Failed to load directory: " ++ message_of e)))
    | inr result => ([], Return result)
    end.
Proof.
  unfold loadDirectory, attempt. destruct net as [e | r]; cbn;
    [reflexivity |].
  destruct (ok r); cbn; [| reflexivity]. now destruct (json_body r).
Qed.

(** What the shared block does to the state. *)
Lemma on_result_cases (result : json) (st : SourceInput) :
  match get result "success" with
  | Throw e => on_result result st = (st, Some e)
  | Return success =>
      exists t,
        on_result result st
        = ((if truthy success then onSourceLoaded (toast t st) else toast t st),
           None)
        /\ title t = (if truthy success then None else Some "Loading Failed")
        /\ variant t = (if truthy success then None else destructive)
        /\ get result "message" = Return (description t)
  end.
Proof.
  unfold on_result. destruct result as [| b | z | s | items | fields]; cbn;
    try (eexists; repeat split; reflexivity).
  destruct (truthy (lookup "success" fields));
    eexists; repeat split; reflexivity.
Qed.

Lemma polling_started_if_console (go : bool) (l : list log_entry)
    (before after : Poller.Index) :
  polling_started_if go before after ->
  polling_started_if go before (Poller.write_console l after).
Proof. exact (fun H => H). Qed.

Ltac load_cases net :=
  destruct (attempt net) as [e | [| b | z | s | items | fields]]; cbn;
  try destruct (truthy (lookup "success" fields)); cbn.

(** X18. A load button starts the status poller exactly when the
    backend accepted the load.  With an empty input no request is sent;
    otherwise one request goes out (an empty token is left out of it),
    [isLoading] is false again at the end, and the page is switched to
    the status tab with polling started if and only if the request came
    back with a truthy [success]: not on a rejected request, a failure
    status, an unreadable body or a refusal.  Either way exactly one
    toast is shown. *)
Theorem load_starts_polling_exactly_when_accepted
    (net : fetch_outcome json) (st : SourceInput) :
  (let asked := negb (String.eqb (repoUrl st) "") in
   let st' := handleLoadRepo net st in
   repo_requests st'
   = (repo_requests st
      ++ (if asked
          then [(repoUrl st,
                 if String.eqb (authToken st) "" then None
                 else Some (authToken st))]
          else []))%list
   /\ directory_requests st' = directory_requests st
   /\ isLoading st' = (if asked then false else isLoading st)
   /\ length (toasts st') = S (length (toasts st))
   /\ polling_started_if (asked && accepted net) (page st) (page st'))
  /\
  (let asked := negb (String.eqb (directoryPath st) "") in
   let st' := handleLoadDirectory net st in
   directory_requests st'
   = (directory_requests st
      ++ (if asked then [directoryPath st] else []))%list
   /\ repo_requests st' = repo_requests st
   /\ isLoading st' = (if asked then false else isLoading st)
   /\ length (toasts st') = S (length (toasts st))
   /\ polling_started_if (asked && accepted net) (page st) (page st')).
Proof.
  unfold polling_started_if, accepted. split.
  - unfold handleLoadRepo. destruct (String.eqb (repoUrl st) ""); cbn.
    + rewrite app_nil_r, length_app, Nat.add_comm. repeat split.
    + rewrite repository_call_logged. unfold on_result.
      load_cases net; rewrite ?length_app, ?(Nat.add_comm _ 1);
        repeat split.
  - unfold handleLoadDirectory. destruct (String.eqb (directoryPath st) ""); cbn.
    + rewrite app_nil_r, length_app, Nat.add_comm. repeat split.
    + rewrite directory_call_logged. unfold on_result.
      load_cases net; rewrite ?length_app, ?(Nat.add_comm _ 1);
        repeat split.
Qed.

(** X19. What the user is told after pressing [Load Repository] with
    a URL entered.  A request that fails (rejected, failure status,
    unreadable body) is reported by the service, and the toast is
    [Loading Failed] with the service's sentence and the error's
    message; a body that is JSON [null] makes the handler itself fail
    and gives [Loading Error] with the type error's message; any other
    body gives its own [message], under [Loading Failed] unless its
    [success] is truthy. *)
Theorem load_reports_what_happened
    (net : fetch_outcome json) (st : SourceInput) :
  repoUrl st <> "" ->
  let st' := handleLoadRepo net st in
  match attempt net with
  | inl e =>
      toasts st'
      = (toasts st
         ++ [{| title := Some "Loading Failed";
                description :=
                  Some (JStr ("Failed to load repository: " ++ message_of e));
                variant := destructive |}])%list
      /\ Poller.console (page st')
         = (Poller.console (page st)
            ++ [Log "Error loading repository:" e])%list
  | inr JNull =>
      toasts st'
      = (toasts st
         ++ [{| title := Some "Loading Error";
                description :=
                  Some (JStr "Cannot read properties of null (reading 'success')");
                variant := destructive |}])%list
      /\ Poller.console (page st')
         = (Poller.console (page st)
            ++ [Log "Error loading repository:"
                  (ErrorObj
                     "Cannot read properties of null (reading 'success')")])%list
  | inr result =>
      exists message,
        get result "message" = Return message
        /\ toasts st'
           = (toasts st
              ++ [{| title := if accepted net then None
                              else Some "Loading Failed";
                     description := message;
                     variant := if accepted net then None else destructive |}])%list
        /\ Poller.console (page st') = Poller.console (page st)
  end.
Proof.
  intros entered st'. subst st'. unfold handleLoadRepo, accepted.
  apply String.eqb_neq in entered. rewrite entered.
  rewrite repository_call_logged. unfold on_result.
  load_cases net; rewrite ?app_nil_r;
    try (eexists; repeat split; reflexivity); repeat split.
Qed.

Lemma load_reports_what_happened_when_unreachable :
  repoUrl (setRepoUrl "https://example.org/repo.git" initial) <> ""
  /\ toasts (handleLoadRepo (Rejected (ErrorObj "Failed to fetch"))
               (setRepoUrl "https://example.org/repo.git" initial))
     = [{| title := Some "Loading Failed";
           description :=
             Some (JStr "Failed to load repository: Failed to fetch");
           variant := destructive |}]
  /\ Poller.startPolling
       (page (handleLoadRepo (Rejected (ErrorObj "Failed to fetch"))
                (setRepoUrl "https://example.org/repo.git" initial)))
     = false.
Proof.
  assert (entered : repoUrl (setRepoUrl "https://example.org/repo.git" initial)
                    <> "") by discriminate.
  split; [exact entered |].
  split; [| reflexivity].
  exact (proj1 (load_reports_what_happened
                  (Rejected (ErrorObj "Failed to fetch"))
                  (setRepoUrl "https://example.org/repo.git" initial)
                  entered)).
Defined.

End LoadingFacts.

(** ** Selecting a file *)
Module FileFacts.
Import JS Service Files.

Lemma content_call_logged (filePath : string) (net : fetch_outcome FileContent) :
  getFileContent filePath net
  = match attempt net with
    | inl e => ([Log "Error getting file content:" e],
                Return (content_fallback filePath e))
    | inr c => ([], Return c)
    end.
Proof.
  unfold getFileContent, attempt. destruct net as [e | r]; cbn;
    [reflexivity |].
  destruct (ok r); cbn; [| reflexivity]. now destruct (json_body r).
Qed.

Lemma select_answer_shown (isMobile : bool) (filePath : string)
    (net : fetch_outcome FileContent) (st : FileView) :
  let st' := select_answer isMobile filePath net st in
  selectedFile st' = selectedFile st
  /\ fileContent st' = Some (content_response filePath net)
  /\ content_requests st' = content_requests st
  /\ toasts st' = toasts st
  /\ Poller.selectedTab (page st')
     = (if isMobile then Poller.TabFiles else Poller.selectedTab (page st))
  /\ exists logs,
       Poller.console (page st') = (Poller.console (page st) ++ logs)%list
       /\ Forall (fun entry => label entry = "Error getting file content:")
            logs.
Proof.
  unfold select_answer, content_response. rewrite content_call_logged.
  destruct (attempt net) as [e | c], isMobile; cbn; repeat split;
    solve [ eexists; split; [reflexivity | repeat constructor]
          | exists []; split; [now rewrite app_nil_r | constructor] ].
Qed.

Lemma last_after {A : Type} (x d : A) (l : list A) :
  last (x :: l) d = last l x.
Proof.
  revert x d. induction l as [| y l IH]; intros x d; [reflexivity |].
  change (last (y :: l) d = last (y :: l) x). now rewrite !IH.
Qed.

(** X20. The file pane under clicks and slow answers.  The selected
    file is the last one clicked, but the content on display is the one
    of the last answer to arrive, whichever click it belongs to; a
    request that fails is displayed like an answer, as the service's
    empty content for the path that was asked, and no toast is ever
    shown for it: all that a failure leaves is the service's console
    entry.  An answer to a call made on a mobile layout opens the files
    tab; otherwise the tab is left alone. *)
Theorem file_pane_shows_the_latest_answer
    (evs : list FileEvent) (st : FileView) :
  let st' := run_files evs st in
  selectedFile st' = last (map Some (clicked evs)) (selectedFile st)
  /\ fileContent st' = last (map Some (contents evs)) (fileContent st)
  /\ content_requests st' = (content_requests st ++ clicked evs)%list
  /\ toasts st' = toasts st
  /\ Poller.selectedTab (page st')
     = (if answered_on_mobile evs then Poller.TabFiles
        else Poller.selectedTab (page st))
  /\ exists logs,
       Poller.console (page st') = (Poller.console (page st) ++ logs)%list
       /\ Forall (fun entry => label entry = "Error getting file content:")
            logs.
Proof.
  unfold run_files. revert st.
  induction evs as [| ev evs IH]; intros st.
  - cbn. rewrite app_nil_r. repeat split. exists []. split;
      [now rewrite app_nil_r | constructor].
  - cbn [fold_left].
    destruct (IH (file_event st ev)) as (S & C & R & T & M & logs & L & F).
    destruct ev as [filePath | isMobile filePath net].
    + cbn [clicked contents answered_on_mobile map].
      rewrite S, C, R, T, M, L, last_after.
      split; [reflexivity |]. split; [reflexivity |].
      split; [cbn; now rewrite <- app_assoc |].
      split; [reflexivity |]. split; [reflexivity |].
      exists logs. now split.
    + cbn [clicked contents answered_on_mobile map file_event] in *.
      destruct (select_answer_shown isMobile filePath net st)
        as (S' & C' & R' & T' & M' & logs' & L' & F').
      rewrite S, C, R, T, M, L, S', C', R', T', M', L', last_after.
      split; [reflexivity |]. split; [reflexivity |].
      split; [reflexivity |]. split; [reflexivity |].
      split; [now destruct isMobile, (answered_on_mobile evs) |].
      exists (logs' ++ logs)%list. split; [now rewrite app_assoc |].
      now apply Forall_app.
Qed.

End FileFacts.

(** ** Connecting to the model server *)
Module OllamaFacts.
Import JS Service Arrays Ollama.

(** The connection test always comes back with a status. *)
Lemma connection_test_returns (net : Answers) :
  exists logs,
    testOllamaConnection (connect_net net) (errorText net)
    = (logs, Return (connection_result net)).
Proof.
  unfold testOllamaConnection, connection_result.
  destruct (connect_net net) as [e | r]; cbn; [eexists; reflexivity |].
  destruct (ok r); cbn.
  - destruct (json_body r); cbn; eexists; reflexivity.
  - destruct (errorText net); cbn; eexists; reflexivity.
Qed.

Lemma model_call_logged (net : fetch_outcome ModelResult) :
  setModel net
  = match attempt net with
    | inl e => ([Log "Error setting model:" e], Return (model_fallback e))
    | inr result => ([], Return result)
    end.
Proof.
  unfold setModel, attempt. destruct net as [e | r]; cbn; [reflexivity |].
  destruct (ok r); cbn; [| reflexivity]. now destruct (json_body r).
Qed.

(** The block that adopts the server's models never throws, and touches
    the models, the selected model, the model requests, the toasts and
    the console only. *)
Lemma adopt_models_cases (net : Answers) (result : OllamaStatus)
    (requested : string) (st : OllamaSelector) :
  connected result = true ->
  exists st',
    adopt_models net result requested st = (st', None)
    /\ isConnecting st' = isConnecting st
    /\ isConnected st' = isConnected st
    /\ connectionError st' = connectionError st
    /\ connection_requests st' = connection_requests st
    /\ isOllamaConnected (page st') = isOllamaConnected (page st)
    /\ availableModels (page st') = availableModels (page st)
    /\ Poller.connectionStep (index (page st'))
       = Poller.connectionStep (index (page st))
    /\ models st'
       = match available_models result with
         | Some available => available
         | None => models st
         end
    /\ (if replaces_model result requested
        then exists suggested,
               suggested_model result = Some suggested
               /\ selectedModel st' = suggested
               /\ model_requests st' = (model_requests st ++ [suggested])%list
        else selectedModel st' = selectedModel st
             /\ model_requests st' = model_requests st).
Proof.
  intros up. unfold adopt_models, replaces_model. rewrite up.
  destruct (available_models result) as [available |];
    [| eexists; repeat split].
  destruct (suggested_model result) as [suggested |];
    [| eexists; repeat split].
  cbn [andb].
  destruct (negb (String.eqb suggested "")
            && negb (includes available requested));
    [| eexists; repeat split].
  rewrite model_call_logged.
  destruct (attempt (model_net net)) as [e | changed];
    (eexists; split; [reflexivity |]; repeat split;
     exists suggested; repeat split).
Qed.

(** X21. Connecting and the setup step.  After [Connect] the button is
    idle again, one connection test has been requested with the URL and
    model entered, and what the page is told is the test's outcome:
    connected or not, and the server's models (none when it lists none
    or is not connected).  The page leaves the setup step exactly when
    the server is connected and lists at least one model, so for a
    connected server without models the handler stays on the setup step;
    when the test fails in any way the error shown is the service's
    sentence. *)
Theorem setup_is_left_only_with_models (net : Answers) (st : OllamaSelector) :
  let result := connection_result net in
  let listed :=
    match available_models result with
    | Some available => available
    | None => []
    end in
  let st' := handleConnect net st in
  isConnecting st' = false
  /\ connection_requests st'
     = (connection_requests st ++ [(serverUrl st, selectedModel st)])%list
  /\ isConnected st' = connected result
  /\ connectionError st'
     = (if connected result then None else Some (status_message result))
  /\ isOllamaConnected (page st') = connected result
  /\ availableModels (page st') = (if connected result then listed else [])
  /\ Poller.connectionStep (index (page st'))
     = (if connected result && (0 <? length listed)%nat
        then Poller.Connected
        else Poller.connectionStep (index (page st))).
Proof.
  intros result listed st'. subst st' listed result. unfold handleConnect.
  destruct (connection_test_returns net) as (logs & ->).
  destruct (connected (connection_result net)) eqn:up.
  - match goal with
    | |- context [adopt_models net ?r ?q ?s] =>
        destruct (adopt_models_cases net r q s up)
          as (st' & -> & G & C & E & R & _ & _ & Step & _)
    end.
    cbn in G, C, E, R, Step |- *.
    destruct (available_models (connection_result net)) as [[| m ms] |];
      cbn; rewrite ?R, ?E, ?C, ?Step; repeat split.
  - cbn. repeat split.
Qed.

(** X22. A requested model the server does not have is replaced when
    the server suggests another: the selector then shows the suggested
    model and has asked the backend for it once, whether or not the
    backend agreed; in every other case the selected model is left as it
    was and no model request is made.  The list of models is the
    server's when it is connected and lists them, and otherwise the
    list from before. *)
Theorem unavailable_model_is_replaced_by_the_suggestion
    (net : Answers) (st : OllamaSelector) :
  let result := connection_result net in
  let st' := handleConnect net st in
  models st'
  = match available_models result with
    | Some available => if connected result then available else models st
    | None => models st
    end
  /\ (if replaces_model result (selectedModel st)
      then exists suggested,
             suggested_model result = Some suggested
             /\ selectedModel st' = suggested
             /\ model_requests st' = (model_requests st ++ [suggested])%list
      else selectedModel st' = selectedModel st
           /\ model_requests st' = model_requests st).
Proof.
  intros result st'. subst st' result. unfold handleConnect.
  destruct (connection_test_returns net) as (logs & ->).
  destruct (connected (connection_result net)) eqn:up.
  - match goal with
    | |- context [adopt_models net ?r ?q ?s] =>
        destruct (adopt_models_cases net r q s up)
          as (st' & -> & _ & _ & _ & _ & _ & _ & _ & M & S)
    end.
    cbn. split.
    + rewrite M. now destruct (available_models (connection_result net)).
    + destruct (replaces_model (connection_result net) (selectedModel st));
        exact S.
  - unfold replaces_model. rewrite up. cbn. split; [| now split].
    now destruct (available_models (connection_result net)).
Qed.

(** X23. Choosing a model.  The selector shows the chosen model and
    closes, whatever the backend says: while not connected nothing is
    sent and nothing is shown; while connected one request is sent and
    one toast is shown, a plain one exactly when the request came back
    with [success], so after a refusal or a failed request the selector
    still shows a model the backend did not switch to. *)
Theorem chosen_model_is_kept_even_when_refused
    (model : string) (net : fetch_outcome ModelResult) (st : OllamaSelector) :
  let st' := handleModelChange model net st in
  let agreed :=
    match attempt net with
    | inr result => model_success result
    | inl _ => false
    end in
  selectedModel st' = model
  /\ open st' = false
  /\ isConnected st' = isConnected st
  /\ (if isConnected st
      then model_requests st' = (model_requests st ++ [model])%list
           /\ exists shown,
                toasts st' = (toasts st ++ [shown])%list
                /\ variant shown = (if agreed then None else destructive)
                /\ (agreed = true ->
                    description shown = "Model changed to " ++ model)
                /\ (forall e, attempt net = inl e ->
                              description shown
                              = "Failed to set model: " ++ message_of e)
      else model_requests st' = model_requests st
           /\ toasts st' = toasts st).
Proof.
  intros st' agreed. subst st' agreed. unfold handleModelChange.
  destruct (isConnected st) eqn:up; [| repeat split; exact up].
  rewrite model_call_logged.
  destruct (attempt net) as [e | result]; cbn.
  - repeat split; [exact up |]. eexists. split; [reflexivity |].
    repeat split; [discriminate | now intros ? [= ->]].
  - destruct (model_success result) eqn:agreed; cbn; repeat split;
      try exact up; eexists; (split; [reflexivity |]);
      repeat split; discriminate.
Qed.

End OllamaFacts.
